(** * Listening-history aggregation and reconciliation: a shallow embedding

    The Python scripts of the repository are embedded as Rocq functions:
    dictionaries become finite maps, sets become finite sets, lists stay
    lists, and a Python exception becomes the [Raise] outcome of a small
    error monad.  The properties of the specification are then stated and
    proved (or refuted) over these definitions. *)

From Stdlib Require Import ZArith QArith Qround Qabs Floats String Ascii List Lia Lqa Bool.
From stdpp Require Import base option list gmap strings sorting.

Open Scope string_scope.

Set Warnings "-clear-no-such-hyp".

(** ** Python outcomes *)

Inductive exn : Set :=
  | AttributeError | KeyError | TypeError | ValueError
  | NameError | ZeroDivisionError | IndexError.

Inductive result (A : Type) : Type :=
  | Ok (a : A)
  | Raise (e : exn).
Arguments Ok {A} a.
Arguments Raise {A} e.

Definition rbind {A B} (k : A → result B) (m : result A) : result B :=
  match m with
  | Ok a => k a
  | Raise e => Raise e
  end.

#[global] Instance result_ret : MRet result := fun _ a => Ok a.
#[global] Instance result_bind : MBind result := fun _ _ k m => rbind k m.

Definition is_ok {A} (m : result A) : bool :=
  match m with Ok _ => true | Raise _ => false end.

(** ** Python string operations *)

Module PyStr.

(** [str.isspace] on the ASCII range: TAB..CR, FS..US and the space. *)
Definition is_space (c : ascii) : bool :=
  let n := nat_of_ascii c in
  ((9 <=? n)%nat && (n <=? 13)%nat) || ((28 <=? n)%nat && (n <=? 32)%nat).

Fixpoint lstrip (s : string) : string :=
  match s with
  | EmptyString => EmptyString
  | String c s' => if is_space c then lstrip s' else s
  end.

Definition rstrip (s : string) : string :=
  String.rev (lstrip (String.rev s)).

(** [s.strip()] *)
Definition strip (s : string) : string := rstrip (lstrip s).

(** [s.endswith(suffix)] *)
Definition endswith (s suffix : string) : bool :=
  String.prefix (String.rev suffix) (String.rev s).

(** [s[:-n]] for a positive [n] *)
Definition drop_last (n : nat) (s : string) : string :=
  String.substring 0 (String.length s - n) s.

(** [needle in s] *)
Fixpoint contains (needle s : string) : bool :=
  String.prefix needle s ||
  match s with
  | EmptyString => false
  | String _ s' => contains needle s'
  end.

(** [s.startswith(p)] *)
Definition startswith (s p : string) : bool := String.prefix p s.

Definition upper_char (c : ascii) : ascii :=
  let n := nat_of_ascii c in
  if (97 <=? n)%nat && (n <=? 122)%nat then ascii_of_nat (n - 32) else c.

(** [s.upper()] on ASCII letters *)
Fixpoint upper (s : string) : string :=
  match s with
  | EmptyString => EmptyString
  | String c s' => String (upper_char c) (upper s')
  end.

(** [s.split(sep, 1)] when [sep in s]: the text before the first
    occurrence of [sep] and the text after it. *)
Fixpoint split_once (sep s : string) : option (string * string) :=
  if String.prefix sep s
  then Some (EmptyString, String.substring (String.length sep)
                            (String.length s - String.length sep) s)
  else match s with
       | EmptyString => None
       | String c s' =>
           match split_once sep s' with
           | Some (a, b) => Some (String c a, b)
           | None => None
           end
       end.

(** A Python string is falsy exactly when it is empty. *)
Definition truthy (s : string) : bool :=
  match s with EmptyString => false | _ => true end.

End PyStr.

(** ** Rows of the play-activity export

    [csv.DictReader] yields one dictionary per line.  A value is a string,
    or [None] when the line is shorter than the header. *)

Abbreviation row := (gmap string (option string)).

(** [row.get(k)]: [None] when the key is absent. *)
Definition row_get (r : row) (k : string) : option string :=
  match r !! k with
  | Some v => v
  | None => None
  end.

(** [row.get(k, '')]: the default only replaces an absent key. *)
Definition row_get_default (r : row) (k : string) : option string :=
  match r !! k with
  | Some v => v
  | None => Some EmptyString
  end.

(** [x or y] on optional strings: [None] and the empty string are falsy. *)
Definition py_or (x y : option string) : option string :=
  match x with
  | Some s => if PyStr.truthy s then x else y
  | None => y
  end.

(** A method call on a value that may be [None]. *)
Definition on_str {A} (v : option string) (f : string → A) : result A :=
  match v with
  | Some s => Ok (f s)
  | None => Raise AttributeError
  end.

(** The normalisation the watch analyser and the catalogue loaders share:
<<
    if album.endswith(' - Single'):
        album = album[:-9]
>> *)
Definition strip_single_suffix (album : string) : string :=
  if PyStr.endswith album " - Single" then PyStr.drop_last 9 album else album.

(** ** Sorting

    [list.sort] and [sorted] are stable.  [sort_by lt] places every element
    before the elements of the already sorted tail that are not smaller,
    so elements with equal keys keep the order of the input. *)

Section Sorting.
Context {A : Type} (lt : A → A → bool).

Fixpoint insert_by (x : A) (l : list A) : list A :=
  match l with
  | [] => [x]
  | y :: l' => if lt y x then y :: insert_by x l' else x :: l
  end.

Definition sort_by (l : list A) : list A := foldr insert_by [] l.
End Sorting.

(** ** analyze_music.py *)

Module MusicAnalyzer.

(** The durations of a row are doubles, as [float] returns them.  The
    completion ratio is the quotient of two track counts: it is kept as
    an exact rational, which orders against the threshold as the double
    does for any number of tracks a file can hold. *)
Definition COMPLETION_THRESHOLD : Q := 7 # 10.
Definition LISTEN_THRESHOLD : float := 0.5%float.

(** The dictionaries and sets of a [MusicAnalyzer] object.  A Python
    dictionary iterates in insertion order: [album_order] records the
    order in which keys entered [album_tracks]. *)
Record analyzer : Type := {
  album_tracks : gmap (string * string) (gset string);
  album_order : list (string * string);
  listened_tracks : gmap (string * string) (gset string);
  album_play_counts : gmap (string * string) Z;
  watch_albums : gset (string * string);
  device_types_found : gset string;
  device_os_names_found : gset string;
  album_first_listen : gmap (string * string) string;
  album_last_listen : gmap (string * string) string
}.

(** [__init__] *)
Definition init : analyzer :=
  {| album_tracks := ∅; album_order := []; listened_tracks := ∅;
     album_play_counts := ∅; watch_albums := ∅;
     device_types_found := ∅; device_os_names_found := ∅;
     album_first_listen := ∅; album_last_listen := ∅ |}.

(** One entry of the list [calculate_completed_albums] returns. *)
Record completed_album : Type := {
  album_name : string;
  total_tracks : nat;
  listened_count : nat;
  completion_percentage : Q;
  play_count : Z;
  first_listen : string;
  last_listen : string
}.

(** [get_album_key]: the first non-empty of three columns, stripped of
    surrounding white space, paired with an empty artist name. *)
Definition get_album_key (r : row) : result (string * string) :=
  let album_name :=
    py_or (row_get r "Album Name")
      (py_or (row_get r "Container Album Name")
             (row_get_default r "Container Name")) in
  let artist_name := EmptyString in
  a ← on_str album_name PyStr.strip;
  Ok (a, PyStr.strip artist_name).

(** [d[k].add(x)] on a [defaultdict(set)] *)
Definition set_add (d : gmap (string * string) (gset string))
    (k : string * string) (x : string) : gmap (string * string) (gset string) :=
  <[k := {[x]} ∪ default ∅ (d !! k)]> d.

(** [d[k] += 1] on a [defaultdict(int)] *)
Definition count_incr (d : gmap (string * string) Z) (k : string * string)
    : gmap (string * string) Z :=
  <[k := (default 0 (d !! k) + 1)%Z]> d.

(** The earliest timestamp seen, compared as strings. *)
Definition update_first (d : gmap (string * string) string)
    (k : string * string) (ts : string) : gmap (string * string) string :=
  match d !! k with
  | None => <[k := ts]> d
  | Some cur => if String.ltb ts cur then <[k := ts]> d else d
  end.

(** The latest timestamp seen, compared as strings. *)
Definition update_last (d : gmap (string * string) string)
    (k : string * string) (ts : string) : gmap (string * string) string :=
  match d !! k with
  | None => <[k := ts]> d
  | Some cur => if String.ltb cur ts then <[k := ts]> d else d
  end.

Definition watch_indicators : list string := ["WATCH"; "WATCHOS"].

(** [is_watch_device]: the three [upper()] calls come first, so a [None]
    field raises before anything is recorded. *)
Definition is_watch_device (st : analyzer) (r : row) : result (analyzer * bool) :=
  device_type ← on_str (row_get_default r "Device Type") PyStr.upper;
  device_os ← on_str (row_get_default r "Device OS Name") PyStr.upper;
  device_name ← on_str (row_get_default r "Client Device Name") PyStr.upper;
  let types :=
    if PyStr.truthy device_type
    then {[device_type]} ∪ device_types_found st else device_types_found st in
  let oses :=
    if PyStr.truthy device_os
    then {[device_os]} ∪ device_os_names_found st else device_os_names_found st in
  let st' :=
    {| album_tracks := album_tracks st; album_order := album_order st;
       listened_tracks := listened_tracks st;
       album_play_counts := album_play_counts st;
       watch_albums := watch_albums st;
       device_types_found := types; device_os_names_found := oses;
       album_first_listen := album_first_listen st;
       album_last_listen := album_last_listen st |} in
  Ok (st', existsb (fun indicator =>
              PyStr.contains indicator device_type
              || PyStr.contains indicator device_os
              || PyStr.contains indicator device_name) watch_indicators).

Section Builtins.

(** [float(s)] on a non-empty string: the double it denotes, or [None]
    when Python raises [ValueError]. *)
Variable py_float : string → option float.

(** [round(x, 1)] *)
Variable py_round1 : Q → Q.

(** [float(row.get(k, 0) or 0)] *)
Definition float_field (r : row) (k : string) : result float :=
  match r !! k with
  | Some (Some s) =>
      if PyStr.truthy s
      then match py_float s with
           | Some f => Ok f
           | None => Raise ValueError
           end
      else Ok 0%float
  | _ => Ok 0%float
  end.

(** Python's [/] on floats raises on a zero divisor of either sign. *)
Definition py_truediv (a b : float) : result float :=
  if PrimFloat.eqb b 0%float then Raise ZeroDivisionError
  else Ok (a / b)%float.

(** The body of the [try] block of [is_track_listened]. *)
Definition is_track_listened_try (r : row) : result bool :=
  play_duration ← float_field r "Play Duration Milliseconds";
  media_duration ← float_field r "Media Duration In Milliseconds";
  if PrimFloat.eqb media_duration 0%float then Ok false
  else
    listen_percentage ← py_truediv play_duration media_duration;
    Ok (PrimFloat.leb LISTEN_THRESHOLD listen_percentage).

(** [is_track_listened]: [except (ValueError, TypeError): return False] *)
Definition is_track_listened (r : row) : result bool :=
  match is_track_listened_try r with
  | Raise ValueError | Raise TypeError => Ok false
  | o => o
  end.

(** The body of the [for row in reader] loop of [process_csv].  The
    analyzer is a mutable object: when a statement raises, the updates
    made before it stay, and the exception is returned beside them. *)
Definition process_row (st : analyzer) (r : row) : analyzer * option exn :=
  match get_album_key r with
  | Raise e => (st, Some e)
  | Ok album_key =>
  match on_str (row_get_default r "Song Name") PyStr.strip with
  | Raise e => (st, Some e)
  | Ok song_name =>
  if negb (PyStr.truthy album_key.1) || negb (PyStr.truthy song_name)
  then (st, None)
  else
    let order1 :=
      match album_tracks st !! album_key with
      | Some _ => album_order st
      | None => (album_order st ++ [album_key])%list
      end in
    let tracks1 := set_add (album_tracks st) album_key song_name in
    match is_track_listened r with
    | Raise e =>
        ({| album_tracks := tracks1; album_order := order1;
            listened_tracks := listened_tracks st;
            album_play_counts := album_play_counts st;
            watch_albums := watch_albums st;
            device_types_found := device_types_found st;
            device_os_names_found := device_os_names_found st;
            album_first_listen := album_first_listen st;
            album_last_listen := album_last_listen st |}, Some e)
    | Ok listened =>
    let listened1 :=
      if listened then set_add (listened_tracks st) album_key song_name
      else listened_tracks st in
    let counts1 := count_incr (album_play_counts st) album_key in
    let event_timestamp :=
      py_or (row_get_default r "Event End Timestamp")
            (row_get_default r "Event Start Timestamp") in
    let '(first1, last1) :=
      match event_timestamp with
      | Some ts =>
          if PyStr.truthy ts
          then (update_first (album_first_listen st) album_key ts,
                update_last (album_last_listen st) album_key ts)
          else (album_first_listen st, album_last_listen st)
      | None => (album_first_listen st, album_last_listen st)
      end in
    let st1 :=
      {| album_tracks := tracks1; album_order := order1;
         listened_tracks := listened1;
         album_play_counts := counts1;
         watch_albums := watch_albums st;
         device_types_found := device_types_found st;
         device_os_names_found := device_os_names_found st;
         album_first_listen := first1;
         album_last_listen := last1 |} in
    match is_watch_device st1 r with
    | Raise e => (st1, Some e)
    | Ok (st2, on_watch) =>
        if on_watch
        then ({| album_tracks := album_tracks st2;
                 album_order := album_order st2;
                 listened_tracks := listened_tracks st2;
                 album_play_counts := album_play_counts st2;
                 watch_albums := {[album_key]} ∪ watch_albums st2;
                 device_types_found := device_types_found st2;
                 device_os_names_found := device_os_names_found st2;
                 album_first_listen := album_first_listen st2;
                 album_last_listen := album_last_listen st2 |}, None)
        else (st2, None)
    end
    end
  end
  end.

(** [process_csv]: the rows in file order; the pass stops at the first
    exception.  The row and skip counters are only printed and are left
    out. *)
Fixpoint process_csv (st : analyzer) (rows : list row) : analyzer * option exn :=
  match rows with
  | [] => (st, None)
  | r :: rows' =>
      match process_row st r with
      | (st', None) => process_csv st' rows'
      | (st', Some e) => (st', Some e)
      end
  end.

(** [listened_tracks / total_tracks] for one key, where it is defined. *)
Definition completion_ratio (st : analyzer) (k : string * string) : option Q :=
  match album_tracks st !! k with
  | None => None
  | Some all_tracks =>
      let listened := default ∅ (listened_tracks st !! k) in
      if (size all_tracks =? 0)%nat then None
      else Some (inject_Z (Z.of_nat (size listened))
                 / inject_Z (Z.of_nat (size all_tracks)))%Q
  end.

(** The loop body of [calculate_completed_albums] for one key. *)
Definition completed_entry (st : analyzer) (k : string * string)
    : option completed_album :=
  match album_tracks st !! k with
  | None => None
  | Some all_tracks =>
      let listened := default ∅ (listened_tracks st !! k) in
      let total := size all_tracks in
      let heard := size listened in
      if (total =? 0)%nat then None
      else
        let completion := (inject_Z (Z.of_nat heard) / inject_Z (Z.of_nat total))%Q in
        if Qle_bool COMPLETION_THRESHOLD completion
        then Some {| album_name := k.1;
                     total_tracks := total;
                     listened_count := heard;
                     completion_percentage := py_round1 (completion * 100)%Q;
                     play_count := default 0%Z (album_play_counts st !! k);
                     first_listen := default "" (album_first_listen st !! k);
                     last_listen := default "" (album_last_listen st !! k) |}
        else None
  end.

(** The sort key [(-completion_percentage, -play_count)], compared as
    Python compares tuples. *)
Definition completed_lt (x y : completed_album) : bool :=
  let a1 := (- completion_percentage x)%Q in
  let a2 := (- completion_percentage y)%Q in
  negb (Qle_bool a2 a1)
  || (Qeq_bool a1 a2 && (- play_count x <? - play_count y)%Z).

Definition calculate_completed_albums (st : analyzer) : list completed_album :=
  sort_by completed_lt (omap (completed_entry st) (album_order st)).

(** The loop body of [get_watch_albums] for one key: no album is left
    out.  Without tracks the percentage is the integer 0, which [round]
    returns as it is. *)
Definition watch_entry (st : analyzer) (k : string * string) : completed_album :=
  let all_tracks := default ∅ (album_tracks st !! k) in
  let listened := default ∅ (listened_tracks st !! k) in
  let total := size all_tracks in
  let heard := size listened in
  {| album_name := k.1;
     total_tracks := total;
     listened_count := heard;
     completion_percentage :=
       if (0 <? total)%nat
       then py_round1 (inject_Z (Z.of_nat heard) / inject_Z (Z.of_nat total) * 100)%Q
       else 0%Q;
     play_count := default 0%Z (album_play_counts st !! k);
     first_listen := default "" (album_first_listen st !! k);
     last_listen := default "" (album_last_listen st !! k) |}.

(** The sort key [-x['play_count']]. *)
Definition play_count_lt (x y : completed_album) : bool :=
  (- play_count x <? - play_count y)%Z.

(** [get_watch_albums].  The set of watch albums iterates in an order the
    language does not fix; the model takes the order of [elements]. *)
Definition get_watch_albums (st : analyzer) : list completed_album :=
  sort_by play_count_lt (watch_entry st <$> elements (watch_albums st)).

End Builtins.

End MusicAnalyzer.

(** ** JSON values and album records

    The persisted report is a JSON document whose album records are
    objects with scalar fields.  A record is a finite map from field names
    to values; a real number is carried as an exact rational. *)

Inductive jval : Type :=
  | JNull
  | JBool (b : bool)
  | JInt (n : Z)
  | JFloat (q : Q)
  | JStr (s : string).

Abbreviation album := (gmap string jval).

(** Python truthiness: [None], [False], zero and the empty string are
    falsy. *)
Definition py_truthy (v : jval) : bool :=
  match v with
  | JNull => false
  | JBool b => b
  | JInt n => negb (n =? 0)%Z
  | JFloat q => negb (Qeq_bool q 0)
  | JStr s => PyStr.truthy s
  end.

(** The truth value of [d.get(k)] (and of [d.get(k, x)] for a falsy
    default [x]). *)
Definition get_truthy (d : album) (k : string) : bool :=
  match d !! k with
  | Some v => py_truthy v
  | None => false
  end.

(** The number a value stands for in arithmetic and comparisons
    ([True] is 1, [False] is 0). *)
Definition num_of (v : jval) : option Q :=
  match v with
  | JBool b => Some (if b then 1 else 0)%Q
  | JInt n => Some (inject_Z n)
  | JFloat q => Some q
  | _ => None
  end.

(** [a < b]: numbers with numbers, strings with strings; any other pair
    raises [TypeError]. *)
Definition py_lt (a b : jval) : result bool :=
  match num_of a, num_of b with
  | Some x, Some y => Ok (negb (Qle_bool y x))
  | _, _ =>
      match a, b with
      | JStr s, JStr t => Ok (String.ltb s t)
      | _, _ => Raise TypeError
      end
  end.

(** [a == b], which is also the equality of dictionary keys. *)
Definition py_eqb (a b : jval) : bool :=
  match num_of a, num_of b with
  | Some x, Some y => Qeq_bool x y
  | _, _ =>
      match a, b with
      | JStr s, JStr t => String.eqb s t
      | JNull, JNull => true
      | _, _ => false
      end
  end.

(** Unary minus. *)
Definition py_neg (v : jval) : result jval :=
  match v with
  | JBool b => Ok (JInt (if b then -1 else 0))
  | JInt n => Ok (JInt (- n))
  | JFloat q => Ok (JFloat (- q))
  | _ => Raise TypeError
  end.

(** The report file: the keys of the top-level object the scripts read or
    write.  A missing key is [None]. *)
Record document : Type := {
  doc_generated_at : option string;
  doc_statistics : option (gmap string jval);
  doc_watch_albums : option (list album);
  doc_completed_watch_albums : option (list album)
}.

(** ** analyze_music_watch.py *)

Module WatchAlbumAnalyzer.

Definition COMPLETION_THRESHOLD : Q := 7 # 10.

Record analyzer : Type := {
  album_to_artist : gmap string string;
  album_tracks : gmap string (gset string);
  listened_tracks : gmap string (gset string);
  album_play_counts : gmap string Z;
  watch_albums : gset string;
  album_first_listen : gmap string string;
  album_last_listen : gmap string string
}.

(** One entry of the list [get_watch_albums] builds. *)
Record watch_album : Type := {
  album_name : string;
  artist_name : string;
  total_tracks : nat;
  listened_count : nat;
  completion_percentage : Q;
  play_count : Z;
  first_listen : string;
  last_listen : string;
  starred : bool
}.

(** The entry as [json.dump] writes it. *)
Definition to_json (a : watch_album) : album :=
  {[ "album_name" := JStr (album_name a);
     "artist_name" := JStr (artist_name a);
     "total_tracks" := JInt (Z.of_nat (total_tracks a));
     "listened_tracks" := JInt (Z.of_nat (listened_count a));
     "completion_percentage" := JFloat (completion_percentage a);
     "play_count" := JInt (play_count a);
     "first_listen" := JStr (first_listen a);
     "last_listen" := JStr (last_listen a);
     "starred" := JBool (starred a) ]}.

(** The key derivation at the head of [process_play_activity]. *)
Definition album_name_of_row (r : row) : result string :=
  let v :=
    py_or (row_get r "Album Name")
      (py_or (row_get r "Container Album Name")
             (row_get_default r "Container Name")) in
  album_name ← on_str v PyStr.strip;
  Ok (strip_single_suffix album_name).

Section Builtins.

(** [round(x, 1)] *)
Variable py_round1 : Q → Q.

(** [(listened_tracks / total_tracks * 100) if total_tracks > 0 else 0] *)
Definition raw_percentage (st : analyzer) (name : string) : Q :=
  let total := size (default ∅ (album_tracks st !! name)) in
  let heard := size (default ∅ (listened_tracks st !! name)) in
  if (0 <? total)%nat
  then (inject_Z (Z.of_nat heard) / inject_Z (Z.of_nat total) * 100)%Q
  else 0%Q.

(** The loop body of [get_watch_albums] for one album name. *)
Definition watch_entry (st : analyzer) (name : string) : option watch_album :=
  let all_tracks := default ∅ (album_tracks st !! name) in
  let listened := default ∅ (listened_tracks st !! name) in
  let percentage := raw_percentage st name in
  if negb (Qle_bool 50 percentage) then None
  else Some {| album_name := name;
               artist_name := default "" (album_to_artist st !! name);
               total_tracks := size all_tracks;
               listened_count := size listened;
               completion_percentage := py_round1 percentage;
               play_count := default 0%Z (album_play_counts st !! name);
               first_listen := default "" (album_first_listen st !! name);
               last_listen := default "" (album_last_listen st !! name);
               starred := false |}.

(** The sort key [-x['play_count']]. *)
Definition play_count_lt (x y : watch_album) : bool :=
  (- play_count x <? - play_count y)%Z.

(** [get_watch_albums].  A Python set of strings iterates in an order
    the language does not fix; the model takes the order of
    [elements]. *)
Definition get_watch_albums (st : analyzer) : list watch_album :=
  sort_by play_count_lt (omap (watch_entry st) (elements (watch_albums st))).

(** The names [generate_report] finds starred in the existing file.
    The loop runs inside [try ... except Exception]: a starred record
    without an ['album_name'] ends it, keeping the names found so far. *)
Fixpoint load_starred (acc : list jval) (albums : list album) : list jval :=
  match albums with
  | [] => acc
  | a :: rest =>
      if get_truthy a "starred"
      then match a !! "album_name" with
           | Some n => load_starred (acc ++ [n])%list rest
           | None => acc
           end
      else load_starred acc rest
  end.

(** [existing_starred] for an output file that may not exist. *)
Definition existing_starred (existing : option document) : list jval :=
  match existing with
  | Some d => load_starred [] (default [] (doc_watch_albums d))
  | None => []
  end.

(** [if album['album_name'] in existing_starred: album['starred'] = True] *)
Definition apply_starred (names : list jval) (a : watch_album) : watch_album :=
  if existsb (py_eqb (JStr (album_name a))) names
  then {| album_name := album_name a; artist_name := artist_name a;
          total_tracks := total_tracks a; listened_count := listened_count a;
          completion_percentage := completion_percentage a;
          play_count := play_count a; first_listen := first_listen a;
          last_listen := last_listen a; starred := true |}
  else a.

(** The album lists of the report [generate_report] writes. *)
Record report : Type := {
  report_watch_albums : list watch_album;
  report_completed_watch_albums : list watch_album
}.

Definition generate_report (st : analyzer) (existing : option document) : report :=
  let albums := apply_starred (existing_starred existing) <$> get_watch_albums st in
  {| report_watch_albums := albums;
     report_completed_watch_albums :=
       filter (fun a => Qle_bool (COMPLETION_THRESHOLD * 100) (completion_percentage a) = true)
              albums |}.

End Builtins.

End WatchAlbumAnalyzer.

(** ** add_genres.py *)

Module AddGenres.

(** The album key [load_genres_from_csv] files a genre under, from the
    container description and with a non-empty genres field. *)
Definition album_of_description (desc : string) : string :=
  match PyStr.split_once " - " desc with
  | Some (_, rest) => strip_single_suffix (PyStr.strip rest)
  | None => strip_single_suffix (PyStr.strip desc)
  end.

End AddGenres.

(** ** Sample builtins

    [float] and [round] are Python builtins; the embedding takes them as
    parameters.  [decimal_float] is [float] on unsigned decimal integers
    below 2^63, where the conversion from the integer is the correctly
    rounded one; on any other string it answers [None].  It is only used
    to run the definitions on concrete rows. *)

Fixpoint digits_value (acc : Z) (s : string) : option Z :=
  match s with
  | EmptyString => Some acc
  | String c s' =>
      match Ascii.is_nat c with
      | Some d => digits_value (10 * acc + Z.of_nat d)%Z s'
      | None => None
      end
  end.

Definition decimal_float (s : string) : option float :=
  match s with
  | EmptyString => None
  | _ =>
      match digits_value 0 s with
      | Some z =>
          if (z <? 2 ^ 63)%Z then Some (PrimFloat.of_uint63 (Uint63.of_Z z))
          else None
      | None => None
      end
  end.

(** Rounding to one decimal, half to even, on exact rationals. *)
Definition round_half_even (x : Q) : Z :=
  let f := Qfloor x in
  let r := (x - inject_Z f)%Q in
  if Qle_bool r (1 # 2)
  then if Qeq_bool r (1 # 2) then (if Z.even f then f else f + 1)%Z else f
  else (f + 1)%Z.

Definition decimal_round1 (x : Q) : Q :=
  (inject_Z (round_half_even (x * 10)) / 10)%Q.

(** The subset invariant of the aggregator: for every key the listened
    tracks are among the tracks seen (an absent entry of either
    [defaultdict] reads as the empty set). *)
Definition listened_subset (st : MusicAnalyzer.analyzer) : Prop :=
  ∀ k, default ∅ (MusicAnalyzer.listened_tracks st !! k)
         ⊆ default ∅ (MusicAnalyzer.album_tracks st !! k).

(** A watch analyzer after two albums: one half listened, one a third. *)
Definition sample_watch_state : WatchAlbumAnalyzer.analyzer :=
  {| WatchAlbumAnalyzer.album_to_artist := {[ "Half" := "An Artist" ]};
     WatchAlbumAnalyzer.album_tracks :=
       {[ "Half" := {[ "one"; "two" ]}; "Third" := {[ "one"; "two"; "three" ]} ]};
     WatchAlbumAnalyzer.listened_tracks :=
       {[ "Half" := {[ "one" ]}; "Third" := {[ "two" ]} ]};
     WatchAlbumAnalyzer.album_play_counts := {[ "Half" := 2%Z; "Third" := 3%Z ]};
     WatchAlbumAnalyzer.watch_albums := {[ "Half"; "Third" ]};
     WatchAlbumAnalyzer.album_first_listen := ∅;
     WatchAlbumAnalyzer.album_last_listen := ∅ |}.

(** ** fetch_strava_data.py *)

Module FetchStrava.

(** A [datetime]: the wall-clock reading in microseconds since the start
    of year 1, and the UTC offset in microseconds when the value is
    timezone-aware. *)
Record datetime : Type := {
  wall_micros : Z;
  utc_offset : option Z
}.

Definition is_aware (d : datetime) : bool :=
  match utc_offset d with Some _ => true | None => false end.

(** [(a - b)] in microseconds: two naive readings, or two aware
    instants; Python refuses to subtract a naive from an aware value. *)
Definition dt_sub (a b : datetime) : result Z :=
  match utc_offset a, utc_offset b with
  | None, None => Ok (wall_micros a - wall_micros b)%Z
  | Some oa, Some ob => Ok ((wall_micros a - oa) - (wall_micros b - ob))%Z
  | _, _ => Raise TypeError
  end.

(** [timedelta.total_seconds()] *)
Definition total_seconds (micros : Z) : Q := (inject_Z micros / 1000000)%Q.

(** [s.replace('Z', '+00:00')] *)
Fixpoint replace_Z (s : string) : string :=
  match s with
  | EmptyString => EmptyString
  | String c s' =>
      if Ascii.eqb c "Z"%char then "+00:00" +:+ replace_Z s'
      else String c (replace_Z s')
  end.

(** A Strava activity as the API returns it, on its scalar fields. *)
Abbreviation activity := (gmap string jval).

Section Builtins.

(** [datetime.fromisoformat(s)], or [None] when it raises
    [ValueError]. *)
Variable fromisoformat : string → option datetime.

(** [parse_iso_timestamp]: a falsy argument gives [None]; a value that
    is not a string has no [replace] and the [AttributeError] is
    caught. *)
Definition parse_iso_timestamp (v : option jval) : option datetime :=
  match v with
  | Some (JStr s) =>
      if PyStr.truthy s then fromisoformat (replace_Z s) else None
  | _ => None
  end.

(** [time_diff < best_diff], where [None] is [float('inf')]. *)
Definition below_best (time_diff : Q) (best_diff : option Q) : bool :=
  match best_diff with
  | None => true
  | Some b => negb (Qle_bool b time_diff)
  end.

(** The [for activity in strava_activities] loop, from the current
    [best_match] and [best_diff]. *)
Fixpoint scan_activities (album_time : datetime) (tolerance_seconds : Z)
    (activities : list (gmap string jval))
    (best_match : option (gmap string jval)) (best_diff : option Q)
    : result (option (gmap string jval)) :=
  match activities with
  | [] => Ok best_match
  | activity :: rest =>
      match parse_iso_timestamp (activity !! "start_date") with
      | None => scan_activities album_time tolerance_seconds rest best_match best_diff
      | Some activity_start =>
          d ← dt_sub album_time activity_start;
          let time_diff := Qabs (total_seconds d) in
          if Qle_bool time_diff (inject_Z tolerance_seconds)
             && below_best time_diff best_diff
          then scan_activities album_time tolerance_seconds rest
                 (Some activity) (Some time_diff)
          else scan_activities album_time tolerance_seconds rest
                 best_match best_diff
      end
  end.

Definition find_matching_strava_activity (album_timestamp : string)
    (strava_activities : list (gmap string jval)) (tolerance_minutes : Z)
    : result (option (gmap string jval)) :=
  match parse_iso_timestamp (Some (JStr album_timestamp)) with
  | None => Ok None
  | Some album_time =>
      let tolerance_seconds := (tolerance_minutes * 60)%Z in
      scan_activities album_time tolerance_seconds strava_activities None None
  end.

(** The absolute start-time delta, in seconds, between a reference
    time and an activity whose start time parses and can be
    subtracted. *)
Definition delta (album_time : datetime) (a : gmap string jval) : option Q :=
  match parse_iso_timestamp (a !! "start_date") with
  | Some start =>
      match dt_sub album_time start with
      | Ok d => Some (Qabs (total_seconds d))
      | Raise _ => None
      end
  | None => None
  end.

(** The activity's start time, when it parses, is aware exactly when
    the reference time is. *)
Definition comparable (album_time : datetime) (a : gmap string jval) : bool :=
  match parse_iso_timestamp (a !! "start_date") with
  | Some start => Bool.eqb (is_aware album_time) (is_aware start)
  | None => true
  end.

End Builtins.

End FetchStrava.

(** The state the matcher's loop carries: no match and an infinite best
    delta, or a match whose delta is within the tolerance. *)
Definition scan_state (tol : Z) (bm : option (gmap string jval)) (bd : option Q) : Prop :=
  match bm, bd with
  | None, None => True
  | Some _, Some d0 => (d0 <= inject_Z tol)%Q
  | _, _ => False
  end.

(** A small instance of [fromisoformat] to run the matcher on:
    [YYYY-MM-DDTHH:MM:SS], optionally followed by [+HH:MM] or [-HH:MM]. *)
Module SampleIso.

Definition digits (s : string) : option Z :=
  match s with
  | EmptyString => None
  | _ => digits_value 0 s
  end.

(** Days from 0001-01-01 to the given civil date. *)
Definition days_from_civil (y m d : Z) : Z :=
  let y' := (if m <=? 2 then y - 1 else y)%Z in
  let era := (y' / 400)%Z in
  let yoe := (y' - era * 400)%Z in
  let mp := ((m + 9) mod 12)%Z in
  let doy := ((153 * mp + 2) / 5 + d - 1)%Z in
  let doe := (yoe * 365 + yoe / 4 - yoe / 100 + doy)%Z in
  (era * 146097 + doe - 306)%Z.

Definition field (s : string) (start len : nat) : option Z :=
  digits (String.substring start len s).

Definition sep (s : string) (pos : nat) (c : ascii) : bool :=
  match String.get pos s with
  | Some c' => Ascii.eqb c c'
  | None => false
  end.

Definition offset (s : string) : option (option Z) :=
  match String.length s with
  | 19%nat => Some None
  | 25%nat =>
      match field s 20 2, field s 23 2 with
      | Some h, Some m =>
          if sep s 22 ":" && (h <? 24)%Z && (m <? 60)%Z
          then
            let o := ((h * 3600 + m * 60) * 1000000)%Z in
            if sep s 19 "+" then Some (Some o)
            else if sep s 19 "-" then Some (Some (- o)%Z)
            else None
          else None
      | _, _ => None
      end
  | _ => None
  end.

Definition fromisoformat (s : string) : option FetchStrava.datetime :=
  match field s 0 4, field s 5 2, field s 8 2,
        field s 11 2, field s 14 2, field s 17 2, offset s with
  | Some y, Some mo, Some d, Some h, Some mi, Some sec, Some off =>
      if sep s 4 "-" && sep s 7 "-" && sep s 10 "T" && sep s 13 ":" && sep s 16 ":"
         && (1 <=? y)%Z && (1 <=? mo)%Z && (mo <=? 12)%Z
         && (1 <=? d)%Z && (d <=? 31)%Z
         && (h <? 24)%Z && (mi <? 60)%Z && (sec <? 60)%Z
      then Some {| FetchStrava.wall_micros :=
                     ((days_from_civil y mo d * 86400 + h * 3600 + mi * 60 + sec)
                      * 1000000)%Z;
                   FetchStrava.utc_offset := off |}
      else None
  | _, _, _, _, _, _, _ => None
  end.

Definition run (start_date name : string) : gmap string jval :=
  {[ "start_date" := JStr start_date; "name" := JStr name ]}.

End SampleIso.

(** ** Sorting with Python comparisons

    [sorted] and [list.sort] first compute the key of every element, then
    compare the keys; a comparison of values of different kinds raises
    [TypeError].  Insertion into the sorted tail keeps elements with equal
    keys in input order, also under [reverse=True]. *)

Fixpoint insert_keyed {A} (reverse : bool) (x : jval * A) (l : list (jval * A))
    : result (list (jval * A)) :=
  match l with
  | [] => Ok [x]
  | y :: l' =>
      before ← (if reverse then py_lt x.1 y.1 else py_lt y.1 x.1);
      if before : bool
      then r ← insert_keyed reverse x l'; Ok (y :: r)
      else Ok (x :: l)
  end.

Fixpoint sort_keyed {A} (reverse : bool) (l : list (jval * A))
    : result (list (jval * A)) :=
  match l with
  | [] => Ok []
  | x :: l' => s ← sort_keyed reverse l'; insert_keyed reverse x s
  end.

(** [sorted(l, key=key, reverse=reverse)] *)
Definition py_sorted {A} (key : A → result jval) (reverse : bool) (l : list A)
    : result (list A) :=
  ks ← mapM key l;
  s ← sort_keyed reverse (zip ks l);
  Ok (s.*2).

(** [for x in l: acc = step(acc, x)], stopping at the first exception. *)
Fixpoint fold_result {A B} (step : B → A → result B) (acc : B) (l : list A)
    : result B :=
  match l with
  | [] => Ok acc
  | x :: l' => acc' ← step acc x; fold_result step acc' l'
  end.

(** ** deduplicate_albums.py *)

Module Dedup.

(** [x.get('play_count', 0)] *)
Definition play_count_key (x : gmap string jval) : jval :=
  default (JInt 0) (x !! "play_count").

(** The keys of [album] that start with ['strava_'], written over
    [merged]. *)
Definition copy_strava (album merged : gmap string jval) : gmap string jval :=
  filter (fun kv => PyStr.startswith kv.1 "strava_" = true) album ∪ merged.

(** The [first_listen] block of the loop body. *)
Definition merge_first (merged album : gmap string jval) : result (gmap string jval) :=
  if get_truthy album "first_listen"
  then
    let mine := default JNull (album !! "first_listen") in
    let current_first := default (JStr "") (merged !! "first_listen") in
    if negb (py_truthy current_first)
    then Ok (<["first_listen" := mine]> merged)
    else
      earlier ← py_lt mine current_first;
      Ok (if earlier : bool then <["first_listen" := mine]> merged else merged)
  else Ok merged.

(** The [last_listen] block of the loop body. *)
Definition merge_last (merged album : gmap string jval) : result (gmap string jval) :=
  if get_truthy album "last_listen"
  then
    let mine := default JNull (album !! "last_listen") in
    let current_last := default (JStr "") (merged !! "last_listen") in
    if negb (py_truthy current_last)
    then Ok (<["last_listen" := mine]> merged)
    else
      later ← py_lt current_last mine;
      Ok (if later : bool then <["last_listen" := mine]> merged else merged)
  else Ok merged.

(** The body of [for album in sorted_albums[1:]]. *)
Definition merge_step (merged album : gmap string jval) : result (gmap string jval) :=
  let merged1 :=
    if get_truthy album "starred"
    then <["starred" := JBool true]> merged else merged in
  merged2 ← merge_first merged1 album;
  merged3 ← merge_last merged2 album;
  Ok (if negb (get_truthy merged3 "strava_activity_id")
         && get_truthy album "strava_activity_id"
      then copy_strava album merged3
      else merged3).

(** [merge_albums] *)
Definition merge_albums (albums_with_same_name : list (gmap string jval))
    : result (gmap string jval) :=
  match albums_with_same_name with
  | [only] => Ok only
  | _ =>
      sorted_albums ←
        py_sorted (fun x => Ok (play_count_key x)) true albums_with_same_name;
      match sorted_albums with
      | [] => Raise IndexError
      | first :: others => fold_result merge_step first others
      end
  end.

(** [album_groups]: a dictionary from names to lists of albums, in
    insertion order; keys are compared with [==]. *)
Fixpoint group_add (name : jval) (a : gmap string jval)
    (groups : list (jval * list (gmap string jval)))
    : list (jval * list (gmap string jval)) :=
  match groups with
  | [] => [(name, [a])]
  | (k, g) :: rest =>
      if py_eqb k name then (k, (g ++ [a])%list) :: rest
      else (k, g) :: group_add name a rest
  end.

(** The grouping loop of [main]; [album['album_name']] raises [KeyError]
    on a record without a name. *)
Definition group_step (groups : list (jval * list (gmap string jval)))
    (a : gmap string jval) : result (list (jval * list (gmap string jval))) :=
  match a !! "album_name" with
  | Some name => Ok (group_add name a groups)
  | None => Raise KeyError
  end.

Definition group_albums (albums : list (gmap string jval))
    : result (list (jval * list (gmap string jval))) :=
  fold_result group_step [] albums.

(** [sum(1 for a in albums if p(a))] *)
Definition count_if (p : gmap string jval → bool) (albums : list (gmap string jval)) : Z :=
  Z.of_nat (length (filter (fun a => p a = true) albums)).

(** The statistics [main] rewrites. *)
Definition update_statistics (albums : list (gmap string jval))
    (stats : gmap string jval) : gmap string jval :=
  let total := Z.of_nat (length albums) in
  let with_strava := count_if (fun a => bool_decide (is_Some (a !! "strava_activity_id"))) albums in
  let with_artist := count_if (fun a => get_truthy a "artist_name") albums in
  let with_genre := count_if (fun a => get_truthy a "genre") albums in
  <["albums_without_genre_data" := JInt (total - with_genre)]>
  (<["albums_with_genre_data" := JInt with_genre]>
  (<["albums_without_artist_info" := JInt (total - with_artist)]>
  (<["albums_with_artist_info" := JInt with_artist]>
  (<["albums_without_strava_data" := JInt (total - with_strava)]>
  (<["albums_with_strava_data" := JInt with_strava]>
  (<["watch_albums" := JInt total]> stats)))))).

(** [main], from the document read to the document the file holds when
    the run ends.  [now] is [datetime.now().isoformat()].  Without
    duplicates the function returns before it writes anything. *)
Definition main (now : string) (data : document) : result document :=
  let albums := default [] (doc_watch_albums data) in
  album_groups ← group_albums albums;
  if forallb (fun g => (length g.2 <=? 1)%nat) album_groups
  then Ok data
  else
    merged ← mapM (fun g => merge_albums g.2) album_groups;
    deduplicated_albums ←
      py_sorted (fun x => py_neg (play_count_key x)) false merged;
    match doc_statistics data with
    | None => Raise KeyError
    | Some stats =>
        Ok {| doc_generated_at := Some now;
              doc_statistics := Some (update_statistics deduplicated_albums stats);
              doc_watch_albums := Some deduplicated_albums;
              doc_completed_watch_albums := doc_completed_watch_albums data |}
    end.

End Dedup.

(** Records the merger handles without a type error: a numeric play count
    and string listen dates, each possibly absent. *)
Definition numeric_or_absent (v : option jval) : bool :=
  match v with
  | None => true
  | Some x => match num_of x with Some _ => true | None => false end
  end.

Definition string_or_absent (v : option jval) : bool :=
  match v with
  | None | Some (JStr _) => true
  | _ => false
  end.

Definition wf_album (a : gmap string jval) : bool :=
  numeric_or_absent (a !! "play_count")
  && string_or_absent (a !! "first_listen")
  && string_or_absent (a !! "last_listen").

(** A report whose records are named and well formed, with a statistics
    object. *)
Definition wf_document (d : document) : bool :=
  forallb (fun a => wf_album a && bool_decide (is_Some (a !! "album_name")))
          (default [] (doc_watch_albums d))
  && bool_decide (is_Some (doc_statistics d)).

(** Sample records. *)
Definition record_a : gmap string jval :=
  {[ "album_name" := JStr "X"; "play_count" := JInt 5; "starred" := JBool false;
     "first_listen" := JStr "2024-05-01T10:00:00Z";
     "last_listen" := JStr "2024-06-01T10:00:00Z" ]}.

Definition record_b : gmap string jval :=
  {[ "album_name" := JStr "X"; "play_count" := JInt 12; "starred" := JBool true;
     "genre" := JStr "Pop";
     "first_listen" := JStr "2024-05-02T10:00:00Z";
     "last_listen" := JStr "2024-05-03T10:00:00Z" ]}.

(** The most played record has no genre and no artist; the other has both. *)
Definition record_plain : gmap string jval :=
  {[ "album_name" := JStr "X"; "play_count" := JInt 12 ]}.

Definition record_tagged : gmap string jval :=
  {[ "album_name" := JStr "X"; "play_count" := JInt 5;
     "genre" := JStr "Pop"; "artist_name" := JStr "Ann" ]}.

Definition sample_document : document :=
  {| doc_generated_at := Some "2024-07-01T00:00:00";
     doc_statistics := Some ∅;
     doc_watch_albums :=
       Some [record_a; {[ "album_name" := JStr "Y"; "play_count" := JInt 7 ]}; record_b];
     doc_completed_watch_albums := None |}.

(** A sort key that is a number. *)
Definition numeric_key {A} (x : jval * A) : Prop := is_Some (num_of x.1).

(** The non-empty string a record holds under a listen-date key. *)
Definition listen_of (a : gmap string jval) (k : string) : option string :=
  match a !! k with
  | Some (JStr s) => if PyStr.truthy s then Some s else None
  | _ => None
  end.

(** The earlier and the later of two timestamps compared as strings; the
    current value stays on a tie. *)
Definition earlier (current mine : string) : string :=
  if String.ltb mine current then mine else current.

Definition later (current mine : string) : string :=
  if String.ltb current mine then mine else current.

(** Combining an optional current value with an optional new one. *)
Definition merge_opt (f : string → string → string)
    (current mine : option string) : option string :=
  match current, mine with
  | Some c, Some s => Some (f c s)
  | Some c, None => Some c
  | None, s => s
  end.

(** The listen dates of a record are strings or absent. *)
Definition listens_ok (a : gmap string jval) : bool :=
  string_or_absent (a !! "first_listen") && string_or_absent (a !! "last_listen").

(** The keys the merge loop may write besides the [strava_] ones. *)
Definition merge_written : list string := ["starred"; "first_listen"; "last_listen"].

(** A record carries a matched activity. *)
Definition has_activity (a : gmap string jval) : bool :=
  get_truthy a "strava_activity_id".



(** Two records carry equal names. *)
Definition name_eqb (a b : gmap string jval) : bool :=
  match a !! "album_name", b !! "album_name" with
  | Some x, Some y => py_eqb x y
  | _, _ => false
  end.

(** No two records of the list carry equal names. *)
Fixpoint names_distinct (l : list (gmap string jval)) : Prop :=
  match l with
  | [] => True
  | a :: l' => (∀ b, b ∈ l' → name_eqb a b = false) ∧ names_distinct l'
  end.

(** No two groups are filed under equal keys. *)
Fixpoint keys_distinct (groups : list (jval * list (gmap string jval))) : Prop :=
  match groups with
  | [] => True
  | g :: groups' =>
      (∀ g', g' ∈ groups' → py_eqb g.1 g'.1 = false) ∧ keys_distinct groups'
  end.

(** Every group is non-empty, and its members are well formed and carry a
    name equal to the key of the group. *)
Definition group_ok (g : jval * list (gmap string jval)) : Prop :=
  g.2 ≠ [] ∧
  Forall (fun a => wf_album a = true ∧
                   ∃ n, a !! "album_name" = Some n ∧ py_eqb g.1 n = true) g.2.

(** The sort key of the final [sort] of [main], for a numeric play count. *)
Definition neg_key (x : gmap string jval) : jval :=
  match py_neg (Dedup.play_count_key x) with
  | Ok v => v
  | Raise _ => JNull
  end.

(** ** merge_maybe_data.py *)

Module MergeMaybe.

(** The keys copied onto an existing album. *)
Definition strava_keys : list string :=
  ["strava_activity_id"; "strava_activity_name"; "strava_start_date";
   "strava_distance_miles"; "strava_moving_time_seconds"].

(** [for key in [...]: if key in maybe_album: existing_album[key] = maybe_album[key]] *)
Definition copy_keys (maybe_album existing_album : gmap string jval)
    : gmap string jval :=
  foldl (fun acc key =>
           match maybe_album !! key with
           | Some v => <[key := v]> acc
           | None => acc
           end) existing_album strava_keys.

(** The inner loop over [existing_albums]: the first album of that name
    is updated in place when it has no ['strava_activity_id'] key, and
    the loop breaks. *)
Fixpoint update_existing (album_name : jval) (maybe_album : gmap string jval)
    (existing_albums : list (gmap string jval))
    : result (list (gmap string jval)) :=
  match existing_albums with
  | [] => Ok []
  | existing_album :: rest =>
      match existing_album !! "album_name" with
      | None => Raise KeyError
      | Some n =>
          if py_eqb n album_name
          then Ok ((if bool_decide (is_Some (existing_album !! "strava_activity_id"))
                    then existing_album
                    else copy_keys maybe_album existing_album) :: rest)
          else rest' ← update_existing album_name maybe_album rest;
               Ok (existing_album :: rest')
      end
  end.

(** The album appended for a name that is not among the existing ones. *)
Definition album_to_add (maybe_album : gmap string jval) : gmap string jval :=
  let copy := delete "confidence" maybe_album in
  let unique_tracks := default (JInt 1) (copy !! "unique_tracks") in
  let copy := delete "unique_tracks" copy in
  <["starred" := JBool false]>
  (<["completion_percentage" := JFloat 100]>
  (<["listened_tracks" := unique_tracks]>
  (<["total_tracks" := unique_tracks]> copy))).

(** The body of [for maybe_album in maybe_albums].  [existing_album_names]
    is the set built before the loop; [existing_albums] is the list the
    loop mutates. *)
Definition process_maybe (existing_album_names : list jval)
    (existing_albums : list (gmap string jval)) (maybe_album : gmap string jval)
    : result (list (gmap string jval)) :=
  match maybe_album !! "album_name" with
  | None => Raise KeyError
  | Some album_name =>
      if existsb (fun n => py_eqb n album_name) existing_album_names
      then update_existing album_name maybe_album existing_albums
      else
        let added := album_to_add maybe_album in
        match added !! "play_count" with
        | None => Raise KeyError
        | Some _ => Ok (existing_albums ++ [added])%list
        end
  end.

(** [{album['album_name'] for album in existing_albums}] *)
Definition album_names (existing_albums : list (gmap string jval))
    : result (list jval) :=
  mapM (fun a => match a !! "album_name" with
                 | Some n => Ok n
                 | None => Raise KeyError
                 end) existing_albums.

(** The names [main] binds before its closing summary, with the names of
    the module and the builtins the summary uses.  The loop variables,
    bound only when a loop body ran, are left out; the summary reads none
    of them. *)
Definition names_in_scope : list string :=
  ["data"; "existing_albums"; "existing_completed"; "maybe_data";
   "maybe_albums"; "added_count"; "skipped_count"; "existing_album_names";
   "albums_with_strava"; "albums_with_artist"; "albums_with_genre"; "f";
   "json"; "datetime"; "DATA_JSON_PATH"; "MAYBE_JSON_PATH"; "BACKUP_PATH";
   "main"; "print"; "len"; "sum"; "open"].

(** The names the closing summary reads, in order. *)
Definition summary_names : list string :=
  ["print"; "print"; "print"; "print"; "added_count"; "print"; "skipped_count";
   "print"; "len"; "existing_albums"; "print"; "len"; "completed_albums";
   "print"; "albums_with_strava"; "print"; "BACKUP_PATH";
   "print"; "DATA_JSON_PATH"].

(** Reading a name that is bound nowhere raises [NameError]. *)
Definition read_name (scope : list string) (x : string) : result unit :=
  if bool_decide (x ∈ scope) then Ok () else Raise NameError.

Definition print_summary : result unit :=
  _ ← mapM (read_name names_in_scope) summary_names; Ok ().

(** The statements of [main] up to and including the write of the merged
    file. *)
Definition merge_and_save (now : string) (data : document)
    (maybe_albums : list (gmap string jval)) : result document :=
  let existing_albums := default [] (doc_watch_albums data) in
  existing_album_names ← album_names existing_albums;
  merged ← fold_result (process_maybe existing_album_names)
              existing_albums maybe_albums;
  sorted ← py_sorted (fun x => py_neg (Dedup.play_count_key x)) false merged;
  match doc_statistics data with
  | None => Raise KeyError
  | Some stats =>
      Ok {| doc_generated_at := Some now;
            doc_statistics := Some (Dedup.update_statistics sorted stats);
            doc_watch_albums := Some sorted;
            doc_completed_watch_albums := doc_completed_watch_albums data |}
  end.

(** [main]: the content of the data file when the run ends, and how the
    run ends.  [maybe_albums] is [maybe_data.get('maybe_albums', [])]. *)
Definition main (now : string) (data : document)
    (maybe_albums : list (gmap string jval)) : document * result unit :=
  match merge_and_save now data maybe_albums with
  | Raise e => (data, Raise e)
  | Ok saved => (saved, print_summary)
  end.

End MergeMaybe.

(** An existing album that already carries an activity id but no distance,
    and a speculative match of the same name that has both. *)
Definition existing_with_id : gmap string jval :=
  {[ "album_name" := JStr "X"; "play_count" := JInt 3;
     "strava_activity_id" := JInt 11 ]}.

Definition existing_without_id : gmap string jval :=
  {[ "album_name" := JStr "X"; "play_count" := JInt 3;
     "artist_name" := JStr "Ann" ]}.

Definition maybe_match : gmap string jval :=
  {[ "album_name" := JStr "X"; "play_count" := JInt 9;
     "artist_name" := JStr "Bob"; "confidence" := JStr "high";
     "strava_activity_id" := JInt 22;
     "strava_distance_miles" := JFloat (31 # 10) ]}.

Definition maybe_document : document :=
  {| doc_generated_at := Some "2024-07-01T00:00:00";
     doc_statistics := Some ∅;
     doc_watch_albums := Some [existing_without_id];
     doc_completed_watch_albums := Some [] |}.

(** An album filed under a name equal to [name]. *)
Definition same_name (name : jval) (e : gmap string jval) : bool :=
  match e !! "album_name" with
  | Some n => py_eqb n name
  | None => false
  end.

(** Sample rows of the play-activity export. *)
Definition single_row : row :=
  {[ "Album Name" := Some "Hit - Single" ]}.

Definition play_row (play media : string) : row :=
  {[ "Play Duration Milliseconds" := Some play;
     "Media Duration In Milliseconds" := Some media ]}.

(** Four records to sort: play counts 1, 2, 2, 1. *)
Definition tagged (count : Z) (tag : string) : gmap string jval :=
  {[ "play_count" := JInt count; "tag" := JStr tag ]}.

Definition unsorted_records : list (gmap string jval) :=
  [tagged 1 "a"; tagged 2 "b"; tagged 2 "c"; tagged 1 "d"].

(** ** Effects of one aggregated row

    What a row that is not skipped does to the analyzer: [key] is the
    album key it was filed under and [song] its track name. *)
Definition row_effect (st st' : MusicAnalyzer.analyzer)
    (key : string * string) (song : string) : Prop :=
  PyStr.truthy key.1 = true ∧ key.2 = "" ∧ PyStr.truthy song = true ∧
  MusicAnalyzer.album_tracks st'
    = MusicAnalyzer.set_add (MusicAnalyzer.album_tracks st) key song ∧
  MusicAnalyzer.album_order st'
    = match MusicAnalyzer.album_tracks st !! key with
      | Some _ => MusicAnalyzer.album_order st
      | None => (MusicAnalyzer.album_order st ++ [key])%list
      end ∧
  (MusicAnalyzer.listened_tracks st' = MusicAnalyzer.listened_tracks st ∨
   MusicAnalyzer.listened_tracks st'
     = MusicAnalyzer.set_add (MusicAnalyzer.listened_tracks st) key song) ∧
  MusicAnalyzer.album_play_counts st'
    = MusicAnalyzer.count_incr (MusicAnalyzer.album_play_counts st) key ∧
  ((MusicAnalyzer.album_first_listen st' = MusicAnalyzer.album_first_listen st ∧
    MusicAnalyzer.album_last_listen st' = MusicAnalyzer.album_last_listen st) ∨
   ∃ ts, MusicAnalyzer.album_first_listen st'
           = MusicAnalyzer.update_first (MusicAnalyzer.album_first_listen st) key ts ∧
         MusicAnalyzer.album_last_listen st'
           = MusicAnalyzer.update_last (MusicAnalyzer.album_last_listen st) key ts) ∧
  (MusicAnalyzer.watch_albums st' = MusicAnalyzer.watch_albums st ∨
   MusicAnalyzer.watch_albums st' = {[key]} ∪ MusicAnalyzer.watch_albums st).

(** A row read from a line that is not shorter than the header: no value
    is [None]. *)
Definition complete_row (r : row) : Prop :=
  map_Forall (fun _ v => is_Some v) r.

(** What the aggregator keeps for every album it has seen: a non-empty
    name with an empty artist, at least one track, none of them the empty
    string, and a play count that is at least the number of tracks. *)
Definition album_counts_ok (st : MusicAnalyzer.analyzer) : Prop :=
  ∀ k tracks, MusicAnalyzer.album_tracks st !! k = Some tracks →
    PyStr.truthy k.1 = true ∧ k.2 = "" ∧
    (0 < size tracks)%nat ∧ ("" ∉ tracks) ∧
    ∃ n, MusicAnalyzer.album_play_counts st !! k = Some n ∧
         (Z.of_nat (size tracks) <= n)%Z.

(** The other dictionaries and sets only hold albums of [album_tracks],
    and [album_order] lists these albums once each. *)
Definition album_keys_ok (st : MusicAnalyzer.analyzer) : Prop :=
  NoDup (MusicAnalyzer.album_order st) ∧
  (∀ k, k ∈ MusicAnalyzer.album_order st
        ↔ is_Some (MusicAnalyzer.album_tracks st !! k)) ∧
  (∀ k, is_Some (MusicAnalyzer.listened_tracks st !! k)
        → is_Some (MusicAnalyzer.album_tracks st !! k)) ∧
  (∀ k, is_Some (MusicAnalyzer.album_play_counts st !! k)
        → is_Some (MusicAnalyzer.album_tracks st !! k)) ∧
  (∀ k, is_Some (MusicAnalyzer.album_first_listen st !! k)
        → is_Some (MusicAnalyzer.album_tracks st !! k)) ∧
  (∀ k, k ∈ MusicAnalyzer.watch_albums st
        → is_Some (MusicAnalyzer.album_tracks st !! k)).

(** The listen dates of an album are both set or both unset, and the first
    is not after the last. *)
Definition listen_dates_ok (first last : gmap (string * string) string) : Prop :=
  ∀ k,
    match first !! k, last !! k with
    | Some f, Some l => String.le f l
    | None, None => True
    | _, _ => False
    end.

(** Two plays on a watch and one on a phone. *)
Definition activity_row (album song play media stamp device : string) : row :=
  {[ "Album Name" := Some album; "Song Name" := Some song;
     "Play Duration Milliseconds" := Some play;
     "Media Duration In Milliseconds" := Some media;
     "Event End Timestamp" := Some stamp;
     "Device Type" := Some device;
     "Device OS Name" := Some ""; "Client Device Name" := Some "" ]}.

Definition sample_rows : list row :=
  [ activity_row "Hit - Single" "One" "30000" "50000" "2024-05-02T10:00:00Z" "Apple Watch";
    activity_row "Hit - Single" "Two" "1000" "50000" "2024-05-01T10:00:00Z" "Apple Watch";
    activity_row "Other" "One" "50000" "50000" "2024-05-03T10:00:00Z" "iPhone" ].

(** A row from a line that ended before the song column. *)
Definition short_row : row :=
  {[ "Album Name" := Some "Other"; "Song Name" := None ]}.

(** A record whose listen dates, when it has a first listen, are both set
    and in order. *)
Definition dates_in_order (a : gmap string jval) : Prop :=
  ∀ f, listen_of a "first_listen" = Some f →
       ∃ l, listen_of a "last_listen" = Some l ∧ String.le f l.

(** A record with an activity and without a star, and one without either. *)
Definition record_run : gmap string jval :=
  {[ "album_name" := JStr "X"; "play_count" := JInt 2;
     "first_listen" := JStr "2024-04-01T10:00:00Z";
     "last_listen" := JStr "2024-04-02T10:00:00Z";
     "strava_activity_id" := JInt 77; "strava_activity_name" := JStr "Morning Run" ]}.

Definition record_quiet : gmap string jval :=
  {[ "album_name" := JStr "X"; "play_count" := JInt 8;
     "first_listen" := JStr "2024-05-01T10:00:00Z";
     "last_listen" := JStr "2024-05-01T11:00:00Z" ]}.

(** Two lists of records carry the same names. *)
Definition same_names (l1 l2 : list (gmap string jval)) : Prop :=
  (∀ a, a ∈ l1 → ∃ b, b ∈ l2 ∧ name_eqb a b = true) ∧
  (∀ b, b ∈ l2 → ∃ a, a ∈ l1 ∧ name_eqb b a = true).

(** A speculative record under a name that the report did not have, with
    the play count the loop prints. *)
Definition new_to (names : list jval) (m : gmap string jval) : Prop :=
  (∃ n, m !! "album_name" = Some n ∧
        existsb (fun x => py_eqb x n) names = false) ∧
  is_Some (m !! "play_count").

(** [b] is [a] up to the five matched-activity keys of merge_maybe_data. *)
Definition same_body (a b : gmap string jval) : Prop :=
  ∀ k, k ∉ MergeMaybe.strava_keys → b !! k = a !! k.

(** A record with a name and a numeric play count. *)
Definition countable_album (a : gmap string jval) : Prop :=
  is_Some (a !! "album_name") ∧
  ∃ v, a !! "play_count" = Some v ∧ is_Some (num_of v).

(** Two speculative matches for one album the report does not have. *)
Definition maybe_new : gmap string jval :=
  {[ "album_name" := JStr "Z"; "play_count" := JInt 4;
     "confidence" := JStr "low"; "unique_tracks" := JInt 3 ]}.

(** * Properties *)

(** ** Key derivation (C1) *)

Example strip_single_suffix_ex :
  strip_single_suffix "Hit - Single" = "Hit" ∧
  strip_single_suffix "Hit" = "Hit" ∧
  strip_single_suffix " - Single" = "".
Proof. repeat split; reflexivity. Qed.

Lemma watch_key_strips_single :
  WatchAlbumAnalyzer.album_name_of_row single_row = Ok "Hit".
Proof. reflexivity. Qed.

Lemma genre_key_strips_single :
  AddGenres.album_of_description "Artist - Hit - Single" = "Hit".
Proof. reflexivity. Qed.

(** C1.  The aggregator of analyze_music.py does not normalise its key: on
    a row whose album is ["Hit - Single"] its [get_album_key] keeps the
    suffix, while the watch analyser and the genre loader derive ["Hit"]
    from the same album name.  The same album therefore has two different
    entity keys across the components. *)
Theorem get_album_key_keeps_single_suffix :
  MusicAnalyzer.get_album_key single_row = Ok ("Hit - Single", "") ∧
  WatchAlbumAnalyzer.album_name_of_row single_row = Ok "Hit" ∧
  AddGenres.album_of_description "Artist - Hit - Single" = "Hit".
Proof. repeat split; reflexivity. Qed.

(** ** Listen classification (C6) *)

Example is_track_listened_ex :
  MusicAnalyzer.is_track_listened decimal_float (play_row "30000" "50000") = Ok true ∧
  MusicAnalyzer.is_track_listened decimal_float (play_row "20000" "50000") = Ok false ∧
  MusicAnalyzer.is_track_listened decimal_float (play_row "30000" "0") = Ok false ∧
  MusicAnalyzer.is_track_listened decimal_float (play_row "30000" "") = Ok false ∧
  MusicAnalyzer.is_track_listened decimal_float (play_row "30000" "n/a") = Ok false ∧
  MusicAnalyzer.is_track_listened decimal_float (play_row "soon" "50000") = Ok false ∧
  MusicAnalyzer.is_track_listened decimal_float ∅ = Ok false.
Proof. repeat split; vm_compute; reflexivity. Qed.

Section Listened.
Variable py_float : string → option float.

Let play (r : row) := MusicAnalyzer.float_field py_float r "Play Duration Milliseconds".
Let media (r : row) := MusicAnalyzer.float_field py_float r "Media Duration In Milliseconds".


Lemma float_field_raises (r : row) (k : string) (e : exn) :
  MusicAnalyzer.float_field py_float r k = Raise e → e = ValueError.
Proof.
  unfold MusicAnalyzer.float_field.
  destruct (r !! k) as [[s|]|]; try discriminate.
  destruct (PyStr.truthy s); try discriminate.
  destruct (py_float s); [discriminate|]. congruence.
Qed.

End Listened.

(** ** Sorting is a rearrangement *)

Lemma insert_by_perm {A} (lt : A → A → bool) (x : A) (l : list A) :
  insert_by lt x l ≡ₚ x :: l.
Proof.
  induction l as [|y l IH]; cbn; [done|].
  destruct (lt y x); [|done].
  rewrite IH. apply Permutation_swap.
Qed.

Lemma sort_by_perm {A} (lt : A → A → bool) (l : list A) :
  sort_by lt l ≡ₚ l.
Proof.
  induction l as [|x l IH]; cbn; [done|].
  rewrite insert_by_perm. by rewrite IH.
Qed.

Lemma elem_of_sort_by {A} (lt : A → A → bool) (x : A) (l : list A) :
  x ∈ sort_by lt l ↔ x ∈ l.
Proof. by rewrite sort_by_perm. Qed.

(** ** Aggregation invariants (C7) *)

Lemma set_add_lookup d k x k' :
  default ∅ (MusicAnalyzer.set_add d k x !! k') =
  if decide (k = k') then {[x]} ∪ default ∅ (d !! k) else default ∅ (d !! k').
Proof.
  unfold MusicAnalyzer.set_add.
  destruct (decide (k = k')) as [->|Hne].
  - by rewrite lookup_insert_eq.
  - by rewrite lookup_insert_ne.
Qed.

Lemma is_watch_device_tracks st r st' b :
  MusicAnalyzer.is_watch_device st r = Ok (st', b) →
  MusicAnalyzer.album_tracks st' = MusicAnalyzer.album_tracks st ∧
  MusicAnalyzer.listened_tracks st' = MusicAnalyzer.listened_tracks st.
Proof.
  unfold MusicAnalyzer.is_watch_device.
  destruct (on_str (row_get_default r "Device Type") _); cbn; [|done].
  destruct (on_str (row_get_default r "Device OS Name") _); cbn; [|done].
  destruct (on_str (row_get_default r "Client Device Name") _); cbn; [|done].
  intros [= <- _]. done.
Qed.

Section Aggregation.
Variable py_float : string → option float.
Variable py_round1 : Q → Q.

Lemma process_row_subset st r :
  listened_subset st →
  listened_subset (MusicAnalyzer.process_row py_float st r).1.
Proof.
  intros Hinv. unfold MusicAnalyzer.process_row.
  destruct (MusicAnalyzer.get_album_key r) as [key|]; [|done].
  destruct (on_str _ _) as [song|]; [|done].
  destruct (negb _ || negb _); [done|].
  destruct (MusicAnalyzer.is_track_listened py_float r) as [heard|].
  2:{ intros k; cbn. rewrite set_add_lookup. specialize (Hinv k).
      destruct (decide (key = k)) as [->|]; set_solver. }
  destruct (py_or _ _) as [ts|]; [destruct (PyStr.truthy ts)|].
  all: match goal with
       | |- context [MusicAnalyzer.is_watch_device ?s ?r'] =>
           destruct (MusicAnalyzer.is_watch_device s r') as [[st2 w]|] eqn:Hw;
           [apply is_watch_device_tracks in Hw as [Ht Hl]; cbn in Ht, Hl;
            assert (listened_subset st2);
            [|by destruct w]|]
       end.
  all: intros k; rewrite ?Ht, ?Hl; cbn;
    specialize (Hinv k); destruct heard;
    rewrite ?set_add_lookup; destruct (decide (key = k)) as [->|]; set_solver.
Qed.

Lemma process_csv_subset rows st :
  listened_subset st →
  listened_subset (MusicAnalyzer.process_csv py_float st rows).1.
Proof.
  revert st. induction rows as [|r rows IH]; intros st Hinv; cbn; [done|].
  pose proof (process_row_subset st r Hinv) as Hstep.
  destruct (MusicAnalyzer.process_row py_float st r) as [st' [e|]]; cbn in *.
  - done.
  - by apply IH.
Qed.

Lemma completion_ratio_bounds st k q :
  listened_subset st →
  MusicAnalyzer.completion_ratio st k = Some q → (0 <= q <= 1)%Q.
Proof.
  intros Hinv. unfold MusicAnalyzer.completion_ratio.
  specialize (Hinv k).
  destruct (MusicAnalyzer.album_tracks st !! k) as [all|]; [|done].
  cbn in Hinv. apply subseteq_size in Hinv.
  destruct (Nat.eqb_spec (size all) 0) as [|Hpos]; [done|].
  intros [= <-].
  set (l := size (default ∅ (MusicAnalyzer.listened_tracks st !! k))) in *.
  assert (0 < inject_Z (Z.of_nat (size all)))%Q as Ht.
  { change 0%Q with (inject_Z 0). rewrite <- Zlt_Qlt. lia. }
  split.
  - apply Qle_shift_div_l; [done|]. rewrite Qmult_0_l.
    change 0%Q with (inject_Z 0). rewrite <- Zle_Qle. lia.
  - apply Qle_shift_div_r; [done|]. rewrite Qmult_1_l.
    rewrite <- Zle_Qle. lia.
Qed.

Lemma completed_entry_total st k e :
  MusicAnalyzer.completed_entry py_round1 st k = Some e →
  (0 < MusicAnalyzer.total_tracks e)%nat ∧
  MusicAnalyzer.album_name e = k.1 ∧
  ∃ all, MusicAnalyzer.album_tracks st !! k = Some all ∧
         MusicAnalyzer.total_tracks e = size all.
Proof.
  unfold MusicAnalyzer.completed_entry.
  destruct (MusicAnalyzer.album_tracks st !! k) as [all|]; [|done].
  destruct (Nat.eqb_spec (size all) 0) as [|Hpos]; [done|].
  destruct (Qle_bool _ _); [|done].
  intros [= <-]; cbn. split; [lia|]. split; [done|]. by exists all.
Qed.

(** C7.  Whatever rows the aggregator has consumed (also when the pass
    was cut short by an exception), every album's listened tracks are
    among its tracks, and the completion ratio, defined exactly for the
    albums with at least one track, lies between 0 and 1.  In any
    analyzer state an album with no track yields no entry of
    [calculate_completed_albums], and every entry of that list comes
    from an album with at least one track. *)
Theorem aggregator_invariants (rows : list row) :
  let st := (MusicAnalyzer.process_csv py_float MusicAnalyzer.init rows).1 in
  (∀ k, default ∅ (MusicAnalyzer.listened_tracks st !! k)
          ⊆ default ∅ (MusicAnalyzer.album_tracks st !! k)) ∧
  (∀ k all, MusicAnalyzer.album_tracks st !! k = Some all →
     (0 < size all)%nat →
     ∃ q, MusicAnalyzer.completion_ratio st k = Some q ∧ (0 <= q <= 1)%Q) ∧
  (∀ st' k all, MusicAnalyzer.album_tracks st' !! k = Some all →
     size all = 0%nat →
     MusicAnalyzer.completion_ratio st' k = None ∧
     MusicAnalyzer.completed_entry py_round1 st' k = None) ∧
  (∀ st' e, e ∈ MusicAnalyzer.calculate_completed_albums py_round1 st' →
     (0 < MusicAnalyzer.total_tracks e)%nat ∧
     ∃ k all, MusicAnalyzer.album_tracks st' !! k = Some all ∧
              MusicAnalyzer.total_tracks e = size all ∧
              MusicAnalyzer.album_name e = k.1).
Proof.
  intros st.
  assert (listened_subset st) as Hinv.
  { apply process_csv_subset. intros k. cbn. by rewrite !lookup_empty. }
  split; [exact Hinv|]. split; [|split].
  - intros k all Hk Hpos.
    destruct (MusicAnalyzer.completion_ratio st k) as [q|] eqn:Hq.
    + exists q. split; [done|]. by eapply completion_ratio_bounds.
    + unfold MusicAnalyzer.completion_ratio in Hq. rewrite Hk in Hq.
      destruct (Nat.eqb_spec (size all) 0); [lia|done].
  - intros st' k all Hk Hz.
    unfold MusicAnalyzer.completion_ratio, MusicAnalyzer.completed_entry.
    rewrite Hk, Hz. done.
  - intros st' e He.
    unfold MusicAnalyzer.calculate_completed_albums in He.
    apply elem_of_sort_by, list_elem_of_omap in He as (k & _ & He).
    apply completed_entry_total in He as (Hpos & Hname & all & Hall & Hsz).
    split; [done|]. by exists k, all.
Qed.
End Aggregation.

(** ** The watch report keeps albums at least half listened (C10) *)

Lemma round_half_even_floor (x : Q) : (Qfloor x <= round_half_even x)%Z.
Proof.
  unfold round_half_even.
  destruct (Qle_bool _ _); [destruct (Qeq_bool _ _); [destruct (Z.even _)|]|]; lia.
Qed.

Lemma decimal_round1_keeps_half (x : Q) :
  (50 <= x)%Q → (50 <= decimal_round1 x)%Q.
Proof.
  intros Hx. unfold decimal_round1.
  apply Qle_shift_div_l; [reflexivity|].
  assert (500 <= Qfloor (x * 10))%Z as Hfl.
  { change 500%Z with (Qfloor 500). apply Qfloor_resp_le. lra. }
  pose proof (round_half_even_floor (x * 10)) as Hr.
  change (50 * 10)%Q with (inject_Z 500). rewrite <- Zle_Qle. lia.
Qed.

Section WatchReport.
Variable py_round1 : Q → Q.
Hypothesis py_round1_half : ∀ x : Q, (50 <= x)%Q → (50 <= py_round1 x)%Q.

Lemma watch_entry_inv st name e :
  WatchAlbumAnalyzer.watch_entry py_round1 st name = Some e →
  WatchAlbumAnalyzer.album_name e = name ∧
  WatchAlbumAnalyzer.starred e = false ∧
  (50 <= WatchAlbumAnalyzer.raw_percentage st name)%Q ∧
  WatchAlbumAnalyzer.completion_percentage e
    = py_round1 (WatchAlbumAnalyzer.raw_percentage st name).
Proof.
  unfold WatchAlbumAnalyzer.watch_entry.
  destruct (Qle_bool 50 _) eqn:Hle; cbn; [|done].
  intros [= <-]; cbn. by apply Qle_bool_iff in Hle.
Qed.

Lemma elem_of_get_watch_albums st e :
  e ∈ WatchAlbumAnalyzer.get_watch_albums py_round1 st ↔
  ∃ name, name ∈ WatchAlbumAnalyzer.watch_albums st ∧
          WatchAlbumAnalyzer.watch_entry py_round1 st name = Some e.
Proof.
  unfold WatchAlbumAnalyzer.get_watch_albums.
  rewrite elem_of_sort_by, list_elem_of_omap.
  by setoid_rewrite elem_of_elements.
Qed.

Lemma apply_starred_fields names a :
  WatchAlbumAnalyzer.album_name (WatchAlbumAnalyzer.apply_starred names a)
    = WatchAlbumAnalyzer.album_name a ∧
  WatchAlbumAnalyzer.completion_percentage (WatchAlbumAnalyzer.apply_starred names a)
    = WatchAlbumAnalyzer.completion_percentage a.
Proof. unfold WatchAlbumAnalyzer.apply_starred. by destruct (existsb _ _). Qed.

(** C10.  Every album in the list [get_watch_albums] returns, and so
    every album of the report [generate_report] writes, has a completion
    percentage of at least 50; an album played on the watch whose
    percentage is below 50 has no entry.  [round(x, 1)] is only assumed
    not to take a value of 50 or more below 50. *)
Theorem watch_albums_at_least_half st existing :
  (∀ e, e ∈ WatchAlbumAnalyzer.get_watch_albums py_round1 st →
        (50 <= WatchAlbumAnalyzer.completion_percentage e)%Q) ∧
  (∀ e, e ∈ WatchAlbumAnalyzer.report_watch_albums
              (WatchAlbumAnalyzer.generate_report py_round1 st existing) →
        (50 <= WatchAlbumAnalyzer.completion_percentage e)%Q) ∧
  (∀ name, name ∈ WatchAlbumAnalyzer.watch_albums st →
     (WatchAlbumAnalyzer.raw_percentage st name < 50)%Q →
     ∀ e, e ∈ WatchAlbumAnalyzer.get_watch_albums py_round1 st →
          WatchAlbumAnalyzer.album_name e ≠ name).
Proof.
  assert (∀ e, e ∈ WatchAlbumAnalyzer.get_watch_albums py_round1 st →
               (50 <= WatchAlbumAnalyzer.completion_percentage e)%Q) as Hall.
  { intros e (name & _ & He)%elem_of_get_watch_albums.
    apply watch_entry_inv in He as (_ & _ & Hraw & ->).
    by apply py_round1_half. }
  split; [done|]. split.
  - intros e He. cbn in He.
    apply list_elem_of_fmap in He as (e' & -> & He').
    destruct (apply_starred_fields
                (WatchAlbumAnalyzer.existing_starred existing) e') as [_ ->].
    by apply Hall.
  - intros name _ Hlow e (name' & _ & He)%elem_of_get_watch_albums.
    apply watch_entry_inv in He as (Hname & _ & Hraw & _).
    intros Heq. rewrite Heq in Hname. subst name'.
    by apply Qlt_not_le in Hlow.
Qed.
End WatchReport.

Lemma watch_albums_at_least_half_witness :
  length (WatchAlbumAnalyzer.get_watch_albums decimal_round1 sample_watch_state) = 1%nat ∧
  Forall (fun e => (50 <= WatchAlbumAnalyzer.completion_percentage e)%Q)
         (WatchAlbumAnalyzer.get_watch_albums decimal_round1 sample_watch_state).
Proof.
  split; [vm_compute; reflexivity|].
  apply Forall_forall. intros e He.
  apply (proj1 (watch_albums_at_least_half decimal_round1
                  decimal_round1_keeps_half sample_watch_state None)).
  exact He.
Defined.

(** ** The activity matcher (C5) *)

Lemma Qle_bool_false_lt (x y : Q) : negb (Qle_bool y x) = true ↔ (x < y)%Q.
Proof.
  rewrite negb_true_iff. split.
  - intros H. apply Qnot_le_lt. intros Hle.
    apply Qle_bool_iff in Hle. congruence.
  - intros H. destruct (Qle_bool y x) eqn:E; [|done].
    apply Qle_bool_iff in E. by apply Qlt_not_le in H.
Qed.

Example matcher_nearest :
  FetchStrava.find_matching_strava_activity SampleIso.fromisoformat
    "2025-03-01T10:00:00Z"
    [SampleIso.run "2025-03-01T10:45:00Z" "a";
     SampleIso.run "2025-03-01T09:50:00Z" "b";
     SampleIso.run "2025-03-01T13:20:00Z" "c"] 60
  = Ok (Some (SampleIso.run "2025-03-01T09:50:00Z" "b")).
Proof. vm_compute. reflexivity. Qed.

Example matcher_boundary :
  FetchStrava.find_matching_strava_activity SampleIso.fromisoformat
    "2025-03-01T10:00:00Z" [SampleIso.run "2025-03-01T11:00:00Z" "a"] 60
  = Ok (Some (SampleIso.run "2025-03-01T11:00:00Z" "a")) ∧
  FetchStrava.find_matching_strava_activity SampleIso.fromisoformat
    "2025-03-01T10:00:00Z" [SampleIso.run "2025-03-01T11:00:01Z" "a"] 60
  = Ok None.
Proof. split; vm_compute; reflexivity. Qed.

Example matcher_first_of_equals :
  FetchStrava.find_matching_strava_activity SampleIso.fromisoformat
    "2025-03-01T10:00:00Z"
    [SampleIso.run "2025-03-01T10:10:00Z" "later";
     SampleIso.run "2025-03-01T09:50:00Z" "earlier"] 30
  = Ok (Some (SampleIso.run "2025-03-01T10:10:00Z" "later")).
Proof. vm_compute. reflexivity. Qed.

(** A reference time without offset against a start time with one: the
    subtraction raises. *)
Example matcher_mixed_awareness :
  FetchStrava.find_matching_strava_activity SampleIso.fromisoformat
    "2025-03-01T10:00:00" [SampleIso.run "2025-03-01T10:10:00Z" "a"] 30
  = Raise TypeError.
Proof. vm_compute. reflexivity. Qed.

Section Matcher.
Variable fromisoformat : string → option FetchStrava.datetime.

Let parse := FetchStrava.parse_iso_timestamp fromisoformat.
Let delta := FetchStrava.delta fromisoformat.
Let comparable := FetchStrava.comparable fromisoformat.
Let scan := FetchStrava.scan_activities fromisoformat.

Lemma comparable_sub t a start :
  comparable t a = true →
  parse (a !! "start_date") = Some start →
  ∃ d, FetchStrava.dt_sub t start = Ok d ∧
       delta t a = Some (Qabs (FetchStrava.total_seconds d)).
Proof.
  unfold comparable, delta, FetchStrava.comparable, FetchStrava.delta.
  fold parse. intros Hc Hp. rewrite Hp in *.
  unfold FetchStrava.dt_sub, FetchStrava.is_aware in *.
  destruct (FetchStrava.utc_offset t), (FetchStrava.utc_offset start);
    try discriminate; eauto.
Qed.

Lemma scan_spec t tol (acts : list (gmap string jval)) :
  ∀ bm bd,
  Forall (fun a => comparable t a = true) acts →
  scan_state tol bm bd →
  ∃ r, scan t tol acts bm bd = Ok r ∧
    ((r = bm ∧
      ∀ b d', b ∈ acts → delta t b = Some d' → (d' <= inject_Z tol)%Q →
              FetchStrava.below_best d' bd = false)
     ∨
     (∃ (i : nat) a d,
        r = Some a ∧ acts !! i = Some a ∧ delta t a = Some d ∧
        (d <= inject_Z tol)%Q ∧ FetchStrava.below_best d bd = true ∧
        ∀ (j : nat) b d', acts !! j = Some b → delta t b = Some d' →
           (d' <= inject_Z tol)%Q →
           (d <= d')%Q ∧ ((j < i)%nat → (d < d')%Q))).
Proof.
  induction acts as [|a rest IH]; intros bm bd Hcmp Hst.
  { exists bm. split; [done|]. left. split; [done|].
    intros b d' Hb. by apply elem_of_nil in Hb. }
  apply Forall_cons in Hcmp as [Ha Hrest].
  cbn [scan FetchStrava.scan_activities]. fold parse.
  destruct (parse (a !! "start_date")) as [start|] eqn:Hp.
  2:{ assert (delta t a = None) as Hda.
      { unfold delta, FetchStrava.delta. fold parse. by rewrite Hp. }
      destruct (IH bm bd Hrest Hst) as (r & Hr & Hcase).
      exists r. split; [exact Hr|].
      destruct Hcase as [[-> Hall] | (i & a' & d & -> & Hi & Hd & Hle & Hbb & Hmin)].
      - left. split; [done|]. intros b d' [->|Hb]%elem_of_cons Hdb Hq.
        + congruence.
        + by eapply Hall.
      - right. exists (S i), a', d. repeat split; try done.
        + destruct j as [|j]; cbn in H; [congruence|]. by eapply Hmin.
        + destruct j as [|j]; cbn in H; [congruence|].
          intros Hlt. eapply Hmin; eauto. lia. }
  destruct (comparable_sub t a start Ha Hp) as (d0 & Hsub & Hda).
  rewrite Hsub. unfold mbind, result_bind, rbind. cbv beta zeta.
  set (td := Qabs (FetchStrava.total_seconds d0)) in *.
  destruct (Qle_bool td (inject_Z tol)) eqn:Htol; cbn [andb].
  2:{ (* beyond the tolerance *)
      assert (¬ (td <= inject_Z tol)%Q) as Hn.
      { intros Hle. apply Qle_bool_iff in Hle. congruence. }
      destruct (IH bm bd Hrest Hst) as (r & Hr & Hcase).
      exists r. split; [exact Hr|].
      destruct Hcase as [[-> Hall] | (i & a' & d & -> & Hi & Hd & Hle & Hbb & Hmin)].
      - left. split; [done|]. intros b d' [->|Hb]%elem_of_cons Hdb Hq.
        + rewrite Hda in Hdb. injection Hdb as <-. done.
        + by eapply Hall.
      - right. exists (S i), a', d. repeat split; try done.
        + destruct j as [|j]; cbn in H.
          * injection H as <-. rewrite Hda in H0. injection H0 as <-. done.
          * by eapply Hmin.
        + destruct j as [|j]; cbn in H.
          * injection H as <-. rewrite Hda in H0. injection H0 as <-. done.
          * intros Hlt. eapply Hmin; eauto. lia. }
  apply Qle_bool_iff in Htol.
  destruct (FetchStrava.below_best td bd) eqn:Hbelow.
  - (* a new best candidate *)
    destruct (IH (Some a) (Some td) Hrest) as (r & Hr & Hcase); [exact Htol|].
    exists r. split; [exact Hr|]. right.
    destruct Hcase as [[-> Hall] | (i & a' & d & -> & Hi & Hd & Hle & Hbb & Hmin)].
    + exists 0%nat, a, td. repeat split; try done.
      * destruct j as [|j]; cbn in H.
        -- injection H as <-. rewrite Hda in H0. injection H0 as <-. apply Qle_refl.
        -- apply list_elem_of_lookup_2 in H.
           specialize (Hall b d' H H0 H1). cbn in Hall.
           apply negb_false_iff, Qle_bool_iff in Hall. done.
      * lia.
    + cbn in Hbb. apply Qle_bool_false_lt in Hbb.
      exists (S i), a', d. repeat split; try done.
      * destruct bd as [b0|]; [|done].
        cbn [FetchStrava.below_best] in *.
        apply Qle_bool_false_lt. apply Qle_bool_false_lt in Hbelow.
        by eapply Qlt_trans.
      * destruct j as [|j]; cbn in H.
        -- injection H as <-. rewrite Hda in H0. injection H0 as <-.
           by apply Qlt_le_weak.
        -- by eapply Hmin.
      * destruct j as [|j]; cbn in H.
        -- injection H as <-. rewrite Hda in H0. injection H0 as <-. done.
        -- intros Hlt. eapply Hmin; eauto. lia.
  - (* within the tolerance, but not below the best so far *)
    destruct bd as [b0|]; [|done]. cbn in Hbelow.
    apply negb_false_iff, Qle_bool_iff in Hbelow.
    destruct (IH bm (Some b0) Hrest Hst) as (r & Hr & Hcase).
    exists r. split; [exact Hr|].
    destruct Hcase as [[-> Hall] | (i & a' & d & -> & Hi & Hd & Hle & Hbb & Hmin)].
    + left. split; [done|]. intros b d' [->|Hb]%elem_of_cons Hdb Hq.
      * rewrite Hda in Hdb. injection Hdb as <-. cbn.
        by apply negb_false_iff, Qle_bool_iff.
      * by eapply Hall.
    + right. exists (S i), a', d. repeat split; try done.
      * destruct j as [|j]; cbn in H.
        -- injection H as <-. rewrite Hda in H0. injection H0 as <-.
           cbn in Hbb. apply Qle_bool_false_lt in Hbb.
           apply Qlt_le_weak. by eapply Qlt_le_trans.
        -- by eapply Hmin.
      * destruct j as [|j]; cbn in H.
        -- injection H as <-. rewrite Hda in H0. injection H0 as <-.
           intros _. cbn in Hbb. apply Qle_bool_false_lt in Hbb.
           by eapply Qlt_le_trans.
        -- intros Hlt. eapply Hmin; eauto. lia.
Qed.
End Matcher.

Section MatcherSpec.
Variable fromisoformat : string → option FetchStrava.datetime.

Let parse := FetchStrava.parse_iso_timestamp fromisoformat.
Let delta := FetchStrava.delta fromisoformat.
Let comparable := FetchStrava.comparable fromisoformat.

End MatcherSpec.


(** ** The record merger *)

Example merge_precedence :
  Dedup.merge_albums [record_a; record_b] =
  Ok {[ "album_name" := JStr "X"; "play_count" := JInt 12; "starred" := JBool true;
        "genre" := JStr "Pop";
        "first_listen" := JStr "2024-05-01T10:00:00Z";
        "last_listen" := JStr "2024-06-01T10:00:00Z" ]}.
Proof. vm_compute. reflexivity. Qed.

Example dedup_main_twice :
  ∃ d, Dedup.main "t1" sample_document = Ok d ∧
       length (default [] (doc_watch_albums d)) = 2%nat ∧
       Dedup.main "t2" d = Ok d.
Proof. eexists. split; [vm_compute; reflexivity|]. split; vm_compute; reflexivity. Qed.

(** *** Python comparisons *)

Lemma py_lt_numeric (a b : jval) x y :
  num_of a = Some x → num_of b = Some y →
  py_lt a b = Ok (negb (Qle_bool y x)).
Proof. unfold py_lt. by intros -> ->. Qed.

Lemma py_lt_strings (s t : string) :
  py_lt (JStr s) (JStr t) = Ok (String.ltb s t).
Proof. reflexivity. Qed.

Lemma py_eqb_refl (a : jval) : py_eqb a a = true.
Proof.
  destruct a as [|b|n|q|s]; cbn; try done.
  - apply Qeq_bool_refl.
  - apply Qeq_bool_refl.
  - apply Qeq_bool_refl.
  - apply String.eqb_refl.
Qed.

Lemma py_eqb_sym (a b : jval) : py_eqb a b = py_eqb b a.
Proof.
  destruct a as [|x|x|x|x], b as [|y|y|y|y]; cbn;
    try done; try apply Qeq_bool_comm.
  apply String.eqb_sym.
Qed.

Lemma py_eqb_trans (a b c : jval) :
  py_eqb a b = true → py_eqb b c = true → py_eqb a c = true.
Proof.
  unfold py_eqb.
  destruct (num_of a) as [x|] eqn:Ea, (num_of b) as [y|] eqn:Eb,
           (num_of c) as [z|] eqn:Ec;
    try (by eauto using Qeq_bool_trans);
    destruct a, b, c; try done.
  intros ->%String.eqb_eq ->%String.eqb_eq. apply String.eqb_refl.
Qed.

(** *** Sorting by keys *)

Lemma insert_keyed_perm {A} reverse (x : jval * A) l l' :
  insert_keyed reverse x l = Ok l' → l' ≡ₚ x :: l.
Proof.
  revert l'. induction l as [|y l IH]; intros l'; cbn.
  { by intros [= <-]. }
  destruct (if reverse then py_lt x.1 y.1 else py_lt y.1 x.1) as [[]|]; cbn;
    [|by intros [= <-]|done].
  destruct (insert_keyed reverse x l) as [r|]; cbn; [|done].
  intros [= <-]. rewrite (IH r eq_refl). apply Permutation_swap.
Qed.

Lemma sort_keyed_perm {A} reverse (l s : list (jval * A)) :
  sort_keyed reverse l = Ok s → s ≡ₚ l.
Proof.
  revert s. induction l as [|x l IH]; intros s; cbn.
  { by intros [= <-]. }
  destruct (sort_keyed reverse l) as [s'|]; cbn; [|done].
  intros ->%insert_keyed_perm. by rewrite (IH s' eq_refl).
Qed.

Lemma insert_keyed_total {A} reverse (x : jval * A) l :
  numeric_key x → Forall numeric_key l →
  ∃ l', insert_keyed reverse x l = Ok l'.
Proof.
  intros [qx Hx]. induction 1 as [|y l [qy Hy] _ IH]; cbn; [by eexists|].
  rewrite (py_lt_numeric _ _ _ _ Hx Hy), (py_lt_numeric _ _ _ _ Hy Hx).
  destruct reverse; cbn.
  - destruct (negb _); cbn; [|by eexists]. destruct IH as [r ->]. by eexists.
  - destruct (negb _); cbn; [|by eexists]. destruct IH as [r ->]. by eexists.
Qed.

Lemma sort_keyed_total {A} reverse (l : list (jval * A)) :
  Forall numeric_key l → ∃ s, sort_keyed reverse l = Ok s.
Proof.
  induction 1 as [|x l Hx Hl [s Hs]]; cbn; [by eexists|].
  rewrite Hs. cbn. apply insert_keyed_total; [done|].
  apply sort_keyed_perm in Hs. by rewrite Hs.
Qed.

Lemma mapM_result_cons {A B} (f : A → result B) (x : A) (l : list A) :
  mapM f (x :: l) =
  match f x with
  | Ok y => match mapM f l with Ok k => Ok (y :: k) | Raise e => Raise e end
  | Raise e => Raise e
  end.
Proof. reflexivity. Qed.

Lemma mapM_ok {A B} (f : A → result B) (g : A → B) (l : list A) :
  Forall (fun x => f x = Ok (g x)) l → mapM f l = Ok (g <$> l).
Proof.
  induction 1 as [|x l Hx _ IH]; [done|].
  by rewrite mapM_result_cons, Hx, IH.
Qed.

Lemma mapM_ok_inv {A B} (f : A → result B) (l : list A) (k : list B) :
  mapM f l = Ok k → Forall2 (fun x y => f x = Ok y) l k.
Proof.
  revert k. induction l as [|x l IH]; intros k.
  { intros [= <-]. constructor. }
  rewrite mapM_result_cons.
  destruct (f x) as [y|] eqn:Hx; [|done].
  destruct (mapM f l) as [k'|] eqn:Hl; [|done].
  intros [= <-]. constructor; [done|by apply IH].
Qed.

Lemma snd_zip_eq {A B} (ks : list A) (l : list B) :
  length ks = length l → (zip ks l).*2 = l.
Proof. intros. apply snd_zip. lia. Qed.

Lemma py_sorted_perm {A} (key : A → result jval) reverse (l s : list A) :
  py_sorted key reverse l = Ok s → s ≡ₚ l.
Proof.
  unfold py_sorted.
  destruct (mapM key l) as [ks|] eqn:Hks; cbn; [|done].
  destruct (sort_keyed reverse (zip ks l)) as [z|] eqn:Hz; cbn; [|done].
  intros [= <-]. apply sort_keyed_perm in Hz. rewrite Hz.
  rewrite snd_zip_eq; [done|].
  apply mapM_ok_inv, Forall2_length in Hks. done.
Qed.

Lemma py_sorted_total {A} (key : A → result jval) (k : A → jval) reverse (l : list A) :
  Forall (fun x => key x = Ok (k x) ∧ is_Some (num_of (k x))) l →
  ∃ s, py_sorted key reverse l = Ok s.
Proof.
  intros Hl. unfold py_sorted.
  rewrite (mapM_ok key k l); [|by eapply Forall_impl; [done|]; intros ? []].
  cbn.
  destruct (sort_keyed_total reverse (zip (k <$> l) l)) as [s Hs].
  { clear -Hl. induction Hl as [|x l [_ Hx] _ IH]; cbn; constructor; done. }
  rewrite Hs. cbn. by eexists.
Qed.

(** Equal keys keep the order of the input, in both directions. *)
Example py_sorted_stable :
  py_sorted (fun x => Ok (Dedup.play_count_key x)) true unsorted_records
    = Ok [tagged 2 "b"; tagged 2 "c"; tagged 1 "a"; tagged 1 "d"] ∧
  py_sorted (fun x => py_neg (Dedup.play_count_key x)) false unsorted_records
    = Ok [tagged 2 "b"; tagged 2 "c"; tagged 1 "a"; tagged 1 "d"] ∧
  py_sorted (fun x => Ok (Dedup.play_count_key x)) true
    [tagged 1 "a"; {[ "play_count" := JStr "many" ]}] = Raise TypeError.
Proof. repeat split; vm_compute; reflexivity. Qed.

Lemma merge_albums_single (a : gmap string jval) :
  Dedup.merge_albums [a] = Ok a.
Proof. reflexivity. Qed.

(** The head of a list sorted in descending order has the greatest key,
    and is the first element of the input with that key. *)
Lemma sort_keyed_head {A} (l : list (jval * A)) h t :
  Forall numeric_key l →
  sort_keyed true l = Ok (h :: t) →
  ∃ (i : nat) qh,
    l !! i = Some h ∧ num_of h.1 = Some qh ∧
    ∀ (j : nat) y qy, l !! j = Some y → num_of y.1 = Some qy →
      (qy <= qh)%Q ∧ ((j < i)%nat → (qy < qh)%Q).
Proof.
  revert h t. induction l as [|x l IH]; intros h t Hnum; [done|].
  apply Forall_cons in Hnum as [[qx Hx] Hl].
  cbn. destruct (sort_keyed true l) as [s|] eqn:Hs; cbn; [|done].
  destruct s as [|y s]; cbn.
  { intros [= <- <-]. apply sort_keyed_perm, Permutation_nil_l in Hs. subst l.
    exists 0%nat, qx. split; [done|]. split; [done|].
    intros [|j] y qy; cbn; [|done].
    intros [= <-] Hy. rewrite Hx in Hy. injection Hy as <-.
    split; [apply Qle_refl|lia]. }
  destruct (IH y s Hl eq_refl) as (i & qy & Hi & Hy & Hmax).
  rewrite (py_lt_numeric _ _ _ _ Hx Hy). cbn.
  destruct (negb (Qle_bool qy qx)) eqn:Hlt.
  - apply Qle_bool_false_lt in Hlt.
    destruct (insert_keyed true x s) as [r|]; cbn; [|done].
    intros [= <- <-]. exists (S i), qy. split; [done|]. split; [done|].
    intros [|j] z qz; cbn.
    + intros [= <-] Hz. rewrite Hx in Hz. injection Hz as <-.
      split; [by apply Qlt_le_weak|done].
    + intros Hj Hz. destruct (Hmax j z qz Hj Hz) as [Hle Hstrict].
      split; [done|]. intros ?. apply Hstrict. lia.
  - apply negb_false_iff, Qle_bool_iff in Hlt.
    intros [= <- <-]. exists 0%nat, qx. split; [done|]. split; [done|].
    intros [|j] z qz; cbn.
    + intros [= <-] Hz. rewrite Hx in Hz. injection Hz as <-.
      split; [apply Qle_refl|lia].
    + intros Hj Hz. destruct (Hmax j z qz Hj Hz) as [Hle _].
      split; [by eapply Qle_trans|lia].
Qed.

(** *** One merge step *)

Lemma strava_prefix_special :
  PyStr.startswith "starred" "strava_" = false ∧
  PyStr.startswith "first_listen" "strava_" = false ∧
  PyStr.startswith "last_listen" "strava_" = false ∧
  PyStr.startswith "strava_activity_id" "strava_" = true.
Proof. repeat split; reflexivity. Qed.

Lemma copy_strava_lookup (a m : gmap string jval) (k : string) :
  Dedup.copy_strava a m !! k =
  if PyStr.startswith k "strava_"
  then match a !! k with Some v => Some v | None => m !! k end
  else m !! k.
Proof.
  unfold Dedup.copy_strava. rewrite lookup_union, map_lookup_filter.
  destruct (a !! k) as [v|] eqn:Ha; cbn.
  - destruct (PyStr.startswith k "strava_") eqn:Hk.
    + rewrite option_guard_True by done. cbn. by destruct (m !! k).
    + rewrite option_guard_False; [by destruct (m !! k)|].
      intros Hc. cbv beta in Hc. cbn [fst] in Hc.
      unfold PyStr.startswith in *. congruence.
  - destruct (PyStr.startswith k "strava_"); by destruct (m !! k).
Qed.

(** The truthy first listen of a record, and its truthy last listen. *)
Lemma listen_of_truthy (a : gmap string jval) (k : string) :
  string_or_absent (a !! k) = true →
  get_truthy a k = true →
  ∃ s, a !! k = Some (JStr s) ∧ PyStr.truthy s = true ∧ listen_of a k = Some s.
Proof.
  unfold get_truthy, listen_of, string_or_absent.
  destruct (a !! k) as [[| | | |s]|]; try done. cbn.
  intros _ Hs. exists s. by rewrite Hs.
Qed.

Lemma listen_of_falsy (a : gmap string jval) (k : string) :
  string_or_absent (a !! k) = true →
  get_truthy a k = false → listen_of a k = None.
Proof.
  unfold get_truthy, listen_of, string_or_absent.
  destruct (a !! k) as [[| | | |s]|]; try done. cbn. by intros _ ->.
Qed.

Lemma listen_of_insert (m : gmap string jval) (k : string) (s : string) :
  PyStr.truthy s = true → listen_of (<[k := JStr s]> m) k = Some s.
Proof. intros Hs. unfold listen_of. by rewrite lookup_insert_eq, Hs. Qed.

Lemma listen_of_string (m : gmap string jval) (k : string) (s : string) :
  listen_of m k = Some s → m !! k = Some (JStr s) ∧ PyStr.truthy s = true.
Proof.
  unfold listen_of. destruct (m !! k) as [[| | | |c]|]; try done.
  destruct (PyStr.truthy c) eqn:Hc; [|done]. by intros [= ->].
Qed.

Lemma listen_of_none_falsy (m : gmap string jval) (k : string) :
  string_or_absent (m !! k) = true → listen_of m k = None →
  py_truthy (default (JStr "") (m !! k)) = false.
Proof.
  unfold listen_of, string_or_absent.
  destruct (m !! k) as [[| | | |c]|]; try done. cbn.
  by destruct (PyStr.truthy c).
Qed.

Lemma merge_first_spec (m a : gmap string jval) :
  string_or_absent (m !! "first_listen") = true →
  string_or_absent (a !! "first_listen") = true →
  ∃ m', Dedup.merge_first m a = Ok m' ∧
    (∀ k, k ≠ "first_listen" → m' !! k = m !! k) ∧
    listen_of m' "first_listen"
      = merge_opt earlier (listen_of m "first_listen") (listen_of a "first_listen") ∧
    (listen_of a "first_listen" = None → m' = m) ∧
    string_or_absent (m' !! "first_listen") = true.
Proof.
  intros Hm Ha. unfold Dedup.merge_first.
  destruct (get_truthy a "first_listen") eqn:Ht.
  2:{ exists m. rewrite (listen_of_falsy a _ Ha Ht).
      repeat split; try done. by destruct (listen_of m "first_listen"). }
  destruct (listen_of_truthy a _ Ha Ht) as (s & Has & Hs & Hls).
  rewrite Has, Hls. cbn [from_option id].
  destruct (listen_of m "first_listen") as [c|] eqn:Hlm.
  - destruct (listen_of_string m _ c Hlm) as [Hmc Hc].
    rewrite Hmc. cbn [from_option id]. unfold py_truthy. rewrite Hc. cbn [negb].
    rewrite py_lt_strings. cbn.
    unfold earlier. destruct (String.ltb s c).
    + exists (<["first_listen" := JStr s]> m). split; [done|].
      split; [by intros k Hk; rewrite lookup_insert_ne|].
      split; [by apply listen_of_insert|]. split; [done|].
      by rewrite lookup_insert_eq.
    + exists m. repeat split; done.
  - rewrite (listen_of_none_falsy m _ Hm Hlm). cbn [negb].
    exists (<["first_listen" := JStr s]> m). split; [done|].
    split; [by intros k Hk; rewrite lookup_insert_ne|].
    split; [by apply listen_of_insert|]. split; [done|].
    by rewrite lookup_insert_eq.
Qed.

Lemma merge_last_spec (m a : gmap string jval) :
  string_or_absent (m !! "last_listen") = true →
  string_or_absent (a !! "last_listen") = true →
  ∃ m', Dedup.merge_last m a = Ok m' ∧
    (∀ k, k ≠ "last_listen" → m' !! k = m !! k) ∧
    listen_of m' "last_listen"
      = merge_opt later (listen_of m "last_listen") (listen_of a "last_listen") ∧
    (listen_of a "last_listen" = None → m' = m) ∧
    string_or_absent (m' !! "last_listen") = true.
Proof.
  intros Hm Ha. unfold Dedup.merge_last.
  destruct (get_truthy a "last_listen") eqn:Ht.
  2:{ exists m. rewrite (listen_of_falsy a _ Ha Ht).
      repeat split; try done. by destruct (listen_of m "last_listen"). }
  destruct (listen_of_truthy a _ Ha Ht) as (s & Has & Hs & Hls).
  rewrite Has, Hls. cbn [from_option id].
  destruct (listen_of m "last_listen") as [c|] eqn:Hlm.
  - destruct (listen_of_string m _ c Hlm) as [Hmc Hc].
    rewrite Hmc. cbn [from_option id]. unfold py_truthy. rewrite Hc. cbn [negb].
    rewrite py_lt_strings. cbn.
    unfold later. destruct (String.ltb c s).
    + exists (<["last_listen" := JStr s]> m). split; [done|].
      split; [by intros k Hk; rewrite lookup_insert_ne|].
      split; [by apply listen_of_insert|]. split; [done|].
      by rewrite lookup_insert_eq.
    + exists m. repeat split; done.
  - rewrite (listen_of_none_falsy m _ Hm Hlm). cbn [negb].
    exists (<["last_listen" := JStr s]> m). split; [done|].
    split; [by intros k Hk; rewrite lookup_insert_ne|].
    split; [by apply listen_of_insert|]. split; [done|].
    by rewrite lookup_insert_eq.
Qed.

Lemma listen_of_ext (m m' : gmap string jval) (k : string) :
  m' !! k = m !! k → listen_of m' k = listen_of m k.
Proof. unfold listen_of. by intros ->. Qed.

Lemma get_truthy_ext (m m' : gmap string jval) (k : string) :
  m' !! k = m !! k → get_truthy m' k = get_truthy m k.
Proof. unfold get_truthy. by intros ->. Qed.

Lemma merge_step_spec (m a : gmap string jval) :
  listens_ok m = true → listens_ok a = true →
  ∃ m', Dedup.merge_step m a = Ok m' ∧
    m' !! "starred"
      = (if get_truthy a "starred" then Some (JBool true) else m !! "starred") ∧
    listen_of m' "first_listen"
      = merge_opt earlier (listen_of m "first_listen") (listen_of a "first_listen") ∧
    listen_of m' "last_listen"
      = merge_opt later (listen_of m "last_listen") (listen_of a "last_listen") ∧
    (listen_of a "first_listen" = None → m' !! "first_listen" = m !! "first_listen") ∧
    (listen_of a "last_listen" = None → m' !! "last_listen" = m !! "last_listen") ∧
    (∀ k, PyStr.startswith k "strava_" = true →
       m' !! k = if negb (has_activity m) && has_activity a
                 then match a !! k with Some v => Some v | None => m !! k end
                 else m !! k) ∧
    (∀ k, k ∉ merge_written → PyStr.startswith k "strava_" = false →
       m' !! k = m !! k) ∧
    listens_ok m' = true.
Proof.
  unfold listens_ok. intros [Hmf Hml]%andb_true_iff [Haf Hal]%andb_true_iff.
  unfold Dedup.merge_step.
  set (m1 := if get_truthy a "starred" then <["starred" := JBool true]> m else m).
  assert (∀ k, k ≠ "starred" → m1 !! k = m !! k) as H1.
  { intros k Hk. subst m1. destruct (get_truthy a "starred"); [|done].
    by rewrite lookup_insert_ne. }
  assert (m1 !! "starred"
          = if get_truthy a "starred" then Some (JBool true) else m !! "starred") as H1s.
  { subst m1. destruct (get_truthy a "starred"); [|done].
    by rewrite lookup_insert_eq. }
  destruct (merge_first_spec m1 a) as (m2 & -> & H2 & H2f & H2n & H2ok);
    [by rewrite H1|done|].
  cbn [mbind result_bind rbind].
  destruct (merge_last_spec m2 a) as (m3 & -> & H3 & H3l & H3n & H3ok);
    [by rewrite H2, H1|done|].
  cbn [mbind result_bind rbind].
  assert (get_truthy m3 "strava_activity_id" = has_activity m) as ->.
  { apply get_truthy_ext. by rewrite H3, H2, H1. }
  fold (has_activity a).
  set (m' := if negb (has_activity m) && has_activity a
             then Dedup.copy_strava a m3 else m3).
  assert (∀ k, PyStr.startswith k "strava_" = false → m' !! k = m3 !! k) as Hplain.
  { intros k Hk. subst m'. destruct (negb _ && _); [|done].
    by rewrite copy_strava_lookup, Hk. }
  exists m'. split; [done|].
  split; [by rewrite Hplain, H3, H2|].
  split.
  { rewrite (listen_of_ext m3 m') by by apply Hplain.
    rewrite (listen_of_ext m2 m3) by by apply H3.
    rewrite H2f. f_equal. apply listen_of_ext. by apply H1. }
  split.
  { rewrite (listen_of_ext m3 m') by by apply Hplain.
    rewrite H3l. f_equal. apply listen_of_ext. by rewrite H2, H1. }
  split.
  { intros Hn. rewrite Hplain, H3, (H2n Hn), H1; done. }
  split.
  { intros Hn. rewrite Hplain, (H3n Hn), H2, H1; done. }
  split.
  { intros k Hk. subst m'.
    assert (m3 !! k = m !! k) as Hk3.
    { rewrite H3, H2, H1; [done|..]; intros ->; done. }
    destruct (negb _ && _); [|done].
    by rewrite copy_strava_lookup, Hk, Hk3. }
  split.
  { intros k Hk Hs. unfold merge_written in Hk.
    rewrite Hplain, H3, H2, H1; [done|..]; try done; intros ->; set_solver. }
  rewrite !Hplain by done. rewrite H3ok.
  rewrite H3 by done. by rewrite H2ok.
Qed.

(** *** The merge loop *)

Lemma merge_fold_spec (rest : list (gmap string jval)) :
  ∀ m0 : gmap string jval,
  listens_ok m0 = true →
  Forall (fun a => listens_ok a = true) rest →
  ∃ m, fold_result Dedup.merge_step m0 rest = Ok m ∧
    m !! "starred"
      = (if existsb (fun a => get_truthy a "starred") rest
         then Some (JBool true) else m0 !! "starred") ∧
    listen_of m "first_listen"
      = foldl (merge_opt earlier) (listen_of m0 "first_listen")
              ((fun a => listen_of a "first_listen") <$> rest) ∧
    listen_of m "last_listen"
      = foldl (merge_opt later) (listen_of m0 "last_listen")
              ((fun a => listen_of a "last_listen") <$> rest) ∧
    (Forall (fun a => listen_of a "first_listen" = None) rest →
       m !! "first_listen" = m0 !! "first_listen") ∧
    (Forall (fun a => listen_of a "last_listen" = None) rest →
       m !! "last_listen" = m0 !! "last_listen") ∧
    (∀ k, PyStr.startswith k "strava_" = true →
       m !! k = match (if has_activity m0 then None
                       else List.find has_activity rest) with
                | Some donor =>
                    match donor !! k with Some v => Some v | None => m0 !! k end
                | None => m0 !! k
                end) ∧
    (∀ k, k ∉ merge_written → PyStr.startswith k "strava_" = false →
       m !! k = m0 !! k) ∧
    listens_ok m = true.
Proof.
  induction rest as [|a rest IH]; intros m0 Hm0 Hrest.
  { exists m0. cbn. repeat split; try done. by destruct (has_activity m0). }
  apply Forall_cons in Hrest as [Ha Hrest].
  destruct (merge_step_spec m0 a Hm0 Ha)
    as (m1 & Hstep & Hs1 & Hf1 & Hl1 & Hfn1 & Hln1 & Hv1 & Ho1 & Hok1).
  destruct (IH m1 Hok1 Hrest)
    as (m & Hfold & Hs & Hf & Hl & Hfn & Hln & Hv & Ho & Hok).
  exists m. cbn [fold_result]. rewrite Hstep. cbn [mbind result_bind rbind].
  split; [done|]. split.
  { rewrite Hs, Hs1. cbn [existsb].
    destruct (get_truthy a "starred"), (existsb _ rest); done. }
  split; [by rewrite Hf, Hf1|]. split; [by rewrite Hl, Hl1|].
  split.
  { intros [Hna Hnr]%Forall_cons. by rewrite (Hfn Hnr), (Hfn1 Hna). }
  split.
  { intros [Hna Hnr]%Forall_cons. by rewrite (Hln Hnr), (Hln1 Hna). }
  split; [|split; [|done]].
  - intros k Hk. rewrite (Hv k Hk).
    assert (has_activity m1 = has_activity m0 || has_activity a) as Hact.
    { unfold has_activity at 1, get_truthy.
      rewrite (Hv1 "strava_activity_id" eq_refl).
      destruct (has_activity m0) eqn:H0; cbn [negb andb orb]; [done|].
      destruct (has_activity a) eqn:Ha'; [|done].
      unfold has_activity, get_truthy in Ha'.
      by destruct (a !! "strava_activity_id"). }
    rewrite Hact, (Hv1 k Hk). cbn [List.find].
    destruct (has_activity m0); cbn [negb andb orb]; [done|].
    destruct (has_activity a); cbn [negb andb orb]; [done|].
    by destruct (List.find has_activity rest).
  - intros k Hk Hs'. by rewrite (Ho k Hk Hs'), (Ho1 k Hk Hs').
Qed.

Lemma wf_album_listens (a : gmap string jval) :
  wf_album a = true → listens_ok a = true.
Proof.
  unfold wf_album, listens_ok.
  intros [[_ ->]%andb_true_iff ->]%andb_true_iff. done.
Qed.

Lemma wf_album_numeric (a : gmap string jval) :
  wf_album a = true → is_Some (num_of (Dedup.play_count_key a)).
Proof.
  unfold wf_album, Dedup.play_count_key, numeric_or_absent.
  intros [[H _]%andb_true_iff _]%andb_true_iff.
  destruct (a !! "play_count") as [v|]; cbn; [|by eexists].
  destruct (num_of v); [by eexists|done].
Qed.

Lemma py_sorted_head (g : list (gmap string jval)) base rest :
  Forall (fun a => wf_album a = true) g →
  py_sorted (fun x => Ok (Dedup.play_count_key x)) true g = Ok (base :: rest) →
  ∃ (i : nat) qb,
    g !! i = Some base ∧ num_of (Dedup.play_count_key base) = Some qb ∧
    ∀ (j : nat) y qy, g !! j = Some y →
      num_of (Dedup.play_count_key y) = Some qy →
      (qy <= qb)%Q ∧ ((j < i)%nat → (qy < qb)%Q).
Proof.
  intros Hwf. unfold py_sorted.
  rewrite (mapM_ok _ Dedup.play_count_key) by by apply Forall_true.
  cbn [mbind result_bind rbind].
  destruct (sort_keyed true _) as [z|] eqn:Hz; cbn [mbind result_bind rbind]; [|done].
  destruct z as [|[kb b] z]; [done|]. cbn. intros [= -> <-].
  apply sort_keyed_head in Hz as (i & qb & Hi & Hqb & Hmax).
  2:{ clear -Hwf. induction Hwf as [|x l Hx _ IH]; cbn; constructor; [|done].
      by apply wf_album_numeric. }
  apply lookup_zip_with_Some in Hi as (k & b' & [= -> ->] & Hk & Hb).
  rewrite list_lookup_fmap, Hb in Hk. injection Hk as <-.
  exists i, qb. split; [done|]. split; [done|].
  intros j y qy Hy Hqy.
  apply (Hmax j (Dedup.play_count_key y, y) qy); [|done].
  apply lookup_zip_with_Some. exists (Dedup.play_count_key y), y.
  split; [done|]. split; [|done]. by rewrite list_lookup_fmap, Hy.
Qed.

Lemma merge_albums_unfold (g : list (gmap string jval)) :
  Forall (fun a => wf_album a = true) g → g ≠ [] →
  ∃ base rest,
    py_sorted (fun x => Ok (Dedup.play_count_key x)) true g = Ok (base :: rest) ∧
    base :: rest ≡ₚ g ∧
    Dedup.merge_albums g = fold_result Dedup.merge_step base rest.
Proof.
  intros Hwf Hne.
  destruct (py_sorted_total (fun x => Ok (Dedup.play_count_key x))
              Dedup.play_count_key true g) as [s Hs].
  { eapply Forall_impl; [exact Hwf|]. intros a Ha. split; [done|].
    by apply wf_album_numeric. }
  pose proof (py_sorted_perm _ _ _ _ Hs) as Hperm.
  destruct s as [|base rest].
  { by apply Permutation_nil_l in Hperm. }
  exists base, rest. split; [done|]. split; [done|].
  destruct g as [|a [|b g]]; [done| |].
  - apply Permutation_length in Hperm as Hlen. destruct rest; [|done].
    apply Permutation_singleton_r in Hperm as [= ->]. done.
  - unfold Dedup.merge_albums. rewrite Hs. done.
Qed.

(** *** Minimum and maximum of the listen dates *)

Lemma ltb_le (s c : string) : String.ltb s c = true → String.le s c.
Proof.
  unfold String.le, String.ltb, String.leb.
  destruct (String.compare s c); cbn; done.
Qed.

Lemma not_ltb_le (s c : string) : String.ltb s c = false → String.le c s.
Proof.
  unfold String.le, String.ltb, String.leb.
  rewrite (String.compare_antisym c s).
  destruct (String.compare s c); cbn; done.
Qed.

Lemma earlier_le (c s : string) :
  String.le (earlier c s) c ∧ String.le (earlier c s) s ∧
  (earlier c s = c ∨ earlier c s = s).
Proof.
  unfold earlier. destruct (String.ltb s c) eqn:E.
  - split; [by apply ltb_le|]. split; [done|by right].
  - split; [done|]. split; [by apply not_ltb_le|by left].
Qed.

Lemma later_le (c s : string) :
  String.le c (later c s) ∧ String.le s (later c s) ∧
  (later c s = c ∨ later c s = s).
Proof.
  unfold later. destruct (String.ltb c s) eqn:E.
  - split; [by apply ltb_le|]. split; [done|by right].
  - split; [done|]. split; [by apply not_ltb_le|by left].
Qed.

Lemma fold_earlier_spec (l : list (option string)) :
  ∀ c : option string,
  (∀ s, c = Some s ∨ Some s ∈ l →
        ∃ m, foldl (merge_opt earlier) c l = Some m ∧ String.le m s) ∧
  (∀ m, foldl (merge_opt earlier) c l = Some m → c = Some m ∨ Some m ∈ l).
Proof.
  induction l as [|x l IH]; intros c; cbn [foldl].
  { split.
    - intros s [->|H]; [by exists s|]. by apply elem_of_nil in H.
    - intros m ->. by left. }
  destruct (IH (merge_opt earlier c x)) as [IHle IHin]. split.
  - intros s Hs.
    assert (∃ s', merge_opt earlier c x = Some s' ∧ String.le s' s ∨ Some s ∈ l)
      as (s' & Hcase).
    { destruct Hs as [->|[<-|Hs]%elem_of_cons].
      - destruct x as [y|]; cbn [merge_opt].
        + destruct (earlier_le s y) as (? & _ & _).
          exists (earlier s y). left. by split.
        + exists s. left. split; [done|reflexivity].
      - destruct c as [y|]; cbn [merge_opt].
        + destruct (earlier_le y s) as (_ & ? & _).
          exists (earlier y s). left. by split.
        + exists s. left. split; [done|reflexivity].
      - exists s. by right. }
    destruct Hcase as [[Hs' Hle]|Hin].
    + destruct (IHle s' (or_introl Hs')) as (m & -> & Hm).
      exists m. split; [done|]. by etrans.
    + by apply IHle; right.
  - intros m Hm. destruct (IHin m Hm) as [Hc|Hin].
    + destruct c as [y|], x as [z|]; cbn [merge_opt] in Hc; simplify_eq.
      * destruct (earlier_le y z) as (_ & _ & [->| ->]).
        -- by left.
        -- right. by left.
      * by left.
      * right. by left.
    + right. by right.
Qed.

Lemma fold_later_spec (l : list (option string)) :
  ∀ c : option string,
  (∀ s, c = Some s ∨ Some s ∈ l →
        ∃ m, foldl (merge_opt later) c l = Some m ∧ String.le s m) ∧
  (∀ m, foldl (merge_opt later) c l = Some m → c = Some m ∨ Some m ∈ l).
Proof.
  induction l as [|x l IH]; intros c; cbn [foldl].
  { split.
    - intros s [->|H]; [by exists s|]. by apply elem_of_nil in H.
    - intros m ->. by left. }
  destruct (IH (merge_opt later c x)) as [IHle IHin]. split.
  - intros s Hs.
    assert (∃ s', merge_opt later c x = Some s' ∧ String.le s s' ∨ Some s ∈ l)
      as (s' & Hcase).
    { destruct Hs as [->|[<-|Hs]%elem_of_cons].
      - destruct x as [y|]; cbn [merge_opt].
        + destruct (later_le s y) as (? & _ & _).
          exists (later s y). left. by split.
        + exists s. left. split; [done|reflexivity].
      - destruct c as [y|]; cbn [merge_opt].
        + destruct (later_le y s) as (_ & ? & _).
          exists (later y s). left. by split.
        + exists s. left. split; [done|reflexivity].
      - exists s. by right. }
    destruct Hcase as [[Hs' Hle]|Hin].
    + destruct (IHle s' (or_introl Hs')) as (m & -> & Hm).
      exists m. split; [done|]. by etrans.
    + by apply IHle; right.
  - intros m Hm. destruct (IHin m Hm) as [Hc|Hin].
    + destruct c as [y|], x as [z|]; cbn [merge_opt] in Hc; simplify_eq.
      * destruct (later_le y z) as (_ & _ & [->| ->]).
        -- by left.
        -- right. by left.
      * by left.
      * right. by left.
    + right. by right.
Qed.

(** *** Merge precedence (C4) *)

(** The most played record lacks the genre and the artist that the other
    record has; the merged record still lacks both. *)
Lemma merge_albums_drops_genre :
  Dedup.merge_albums [record_plain; record_tagged] = Ok record_plain ∧
  record_tagged !! "genre" = Some (JStr "Pop") ∧
  record_tagged !! "artist_name" = Some (JStr "Ann") ∧
  record_plain !! "genre" = None ∧
  record_plain !! "artist_name" = None.
Proof. repeat split; vm_compute; reflexivity. Qed.

Lemma elem_of_listens (g : list (gmap string jval)) (k s : string) :
  Some s ∈ (fun a => listen_of a k) <$> g ↔ ∃ a, a ∈ g ∧ listen_of a k = Some s.
Proof.
  rewrite list_elem_of_fmap. split.
  - intros (a & Hs & Ha). by exists a.
  - intros (a & Ha & Hs). by exists a.
Qed.

(** C4, as the code has it.  For a non-empty group of records with numeric
    play counts and string listen dates, [merge_albums] returns a record
    built on the base, the record with the highest play count (the first
    such record of the input on a tie).  Its first listen is the least
    and its last listen the greatest of the non-empty values of the
    group.  Every field other than [starred], the two listen dates and the
    [strava_] fields is the base's: artist and genre are never copied from
    another record.  The [strava_] fields are the base's when the base has
    a non-empty [strava_activity_id]; otherwise those of the first other
    record (in descending play-count order) that has one are written over
    the base's, and when there is none the base's are kept. *)
Theorem merge_albums_spec (g : list (gmap string jval)) :
  Forall (fun a => wf_album a = true) g → g ≠ [] →
  ∃ base rest m,
    py_sorted (fun x => Ok (Dedup.play_count_key x)) true g = Ok (base :: rest) ∧
    base :: rest ≡ₚ g ∧
    Dedup.merge_albums g = Ok m ∧
    (∃ (i : nat) qb,
       g !! i = Some base ∧ num_of (Dedup.play_count_key base) = Some qb ∧
       ∀ (j : nat) y qy, g !! j = Some y →
         num_of (Dedup.play_count_key y) = Some qy →
         (qy <= qb)%Q ∧ ((j < i)%nat → (qy < qb)%Q)) ∧
    (∀ a s, a ∈ g → listen_of a "first_listen" = Some s →
       ∃ s0, listen_of m "first_listen" = Some s0 ∧ String.le s0 s) ∧
    (∀ s0, listen_of m "first_listen" = Some s0 →
       ∃ a, a ∈ g ∧ listen_of a "first_listen" = Some s0) ∧
    (∀ a s, a ∈ g → listen_of a "last_listen" = Some s →
       ∃ s0, listen_of m "last_listen" = Some s0 ∧ String.le s s0) ∧
    (∀ s0, listen_of m "last_listen" = Some s0 →
       ∃ a, a ∈ g ∧ listen_of a "last_listen" = Some s0) ∧
    (∀ k, k ∉ merge_written → PyStr.startswith k "strava_" = false →
       m !! k = base !! k) ∧
    m !! "artist_name" = base !! "artist_name" ∧
    m !! "genre" = base !! "genre" ∧
    m !! "play_count" = base !! "play_count" ∧
    (∀ k, PyStr.startswith k "strava_" = true →
       m !! k = match (if has_activity base then None
                       else List.find has_activity rest) with
                | Some donor =>
                    match donor !! k with Some v => Some v | None => base !! k end
                | None => base !! k
                end).
Proof.
  intros Hwf Hne.
  destruct (merge_albums_unfold g Hwf Hne) as (base & rest & Hsorted & Hperm & Hmerge).
  assert (Forall (fun a => wf_album a = true) (base :: rest)) as Hwf'
    by by rewrite Hperm.
  apply Forall_cons in Hwf' as [Hbase Hrest].
  destruct (merge_fold_spec rest base) as
    (m & Hfold & _ & Hf & Hl & _ & _ & Hv & Ho & _).
  { by apply wf_album_listens. }
  { eapply Forall_impl; [exact Hrest|]. apply wf_album_listens. }
  exists base, rest, m. split; [done|]. split; [done|].
  split; [by rewrite Hmerge|].
  split; [by eapply py_sorted_head|].
  assert (∀ k s, (∃ a, a ∈ g ∧ listen_of a k = Some s) ↔
                 listen_of base k = Some s
                 ∨ Some s ∈ (fun a => listen_of a k) <$> rest) as Hin.
  { intros k s. rewrite elem_of_listens. split.
    - intros (a & Ha & Hs). rewrite <- Hperm in Ha.
      apply elem_of_cons in Ha as [->|Ha]; [by left|]. right. by exists a.
    - intros [Hs|(a & Ha & Hs)].
      + exists base. split; [|done]. rewrite <- Hperm. by left.
      + exists a. split; [|done]. rewrite <- Hperm. by right. }
  destruct (fold_earlier_spec ((fun a => listen_of a "first_listen") <$> rest)
              (listen_of base "first_listen")) as [Hfle Hfin].
  destruct (fold_later_spec ((fun a => listen_of a "last_listen") <$> rest)
              (listen_of base "last_listen")) as [Hlle Hlin].
  rewrite <- Hf in Hfle, Hfin. rewrite <- Hl in Hlle, Hlin.
  split.
  { intros a s Ha Hs. apply Hfle, Hin. by exists a. }
  split.
  { intros s0 Hs0. apply Hin. by apply Hfin. }
  split.
  { intros a s Ha Hs. apply Hlle, Hin. by exists a. }
  split.
  { intros s0 Hs0. apply Hin. by apply Hlin. }
  split; [exact Ho|].
  split; [apply Ho; [unfold merge_written; set_solver|done]|].
  split; [apply Ho; [unfold merge_written; set_solver|done]|].
  split; [apply Ho; [unfold merge_written; set_solver|done]|].
  exact Hv.
Qed.

Lemma merge_albums_spec_witness :
  ∃ base rest m,
    base :: rest ≡ₚ [record_a; record_b] ∧
    Dedup.merge_albums [record_a; record_b] = Ok m ∧
    m !! "genre" = base !! "genre" ∧
    m !! "play_count" = base !! "play_count".
Proof.
  destruct (merge_albums_spec [record_a; record_b])
    as (base & rest & m & _ & Hperm & Hm & _ & _ & _ & _ & _ & _ & _ & Hg & Hp & _).
  - repeat constructor.
  - done.
  - exists base, rest, m. done.
Defined.

(** *** The starred flag (C3) *)




Section Starred.
Variable py_round1 : Q → Q.

End Starred.


(** *** Grouping by name *)

Lemma name_eqb_sym (a b : gmap string jval) : name_eqb a b = name_eqb b a.
Proof.
  unfold name_eqb.
  destruct (a !! "album_name"), (b !! "album_name"); try done.
  apply py_eqb_sym.
Qed.

Lemma names_distinct_perm (l l' : list (gmap string jval)) :
  l ≡ₚ l' → names_distinct l → names_distinct l'.
Proof.
  induction 1 as [|x l l' Hp IH|x y l|l l' l'' _ IH1 _ IH2]; cbn.
  - done.
  - intros [Hx Hl]. split; [|by apply IH].
    intros b Hb. apply Hx. by rewrite Hp.
  - intros (Hy & Hx & Hl). split; [|split; [|done]].
    + intros b [->|Hb]%elem_of_cons.
      * rewrite name_eqb_sym. apply Hy. by left.
      * by apply Hx.
    + intros b Hb. apply Hy. by right.
  - intros H. by apply IH2, IH1.
Qed.

Lemma group_add_fresh (n : jval) (a : gmap string jval) groups :
  (∀ g, g ∈ groups → py_eqb g.1 n = false) →
  Dedup.group_add n a groups = (groups ++ [(n, [a])])%list.
Proof.
  induction groups as [|[k g] groups IH]; intros Hfresh; cbn; [done|].
  assert (py_eqb k n = false) as -> by by apply (Hfresh (k, g)); left.
  rewrite IH; [done|]. intros g' Hg'. apply Hfresh. by right.
Qed.

Lemma group_add_ok (n : jval) (a : gmap string jval) groups :
  wf_album a = true → a !! "album_name" = Some n →
  Forall group_ok groups → keys_distinct groups →
  Forall group_ok (Dedup.group_add n a groups) ∧
  keys_distinct (Dedup.group_add n a groups) ∧
  (∀ g', g' ∈ Dedup.group_add n a groups →
         (∃ g, g ∈ groups ∧ g'.1 = g.1) ∨ g'.1 = n).
Proof.
  intros Hwf Hn. induction groups as [|[k g] groups IH]; intros Hok Hkeys; cbn.
  { split; [|split].
    - constructor; [|done]. split; [done|]. constructor; [|done].
      split; [done|]. exists n. split; [done|apply py_eqb_refl].
    - split; [|done]. intros g' Hg'. by apply elem_of_nil in Hg'.
    - intros g' ->%list_elem_of_singleton. by right. }
  apply Forall_cons in Hok as [[Hne Hg] Hok]. destruct Hkeys as [Hk Hkeys].
  destruct (py_eqb k n) eqn:Hkn.
  - split; [|split].
    + constructor; [|done]. split; cbn.
      * intros Heq. by apply app_eq_nil in Heq as [_ ?].
      * apply Forall_app. split; [done|]. constructor; [|done].
        split; [done|]. by exists n.
    + done.
    + intros g' [->|Hg']%elem_of_cons.
      * left. exists (k, g). split; [by left|done].
      * left. exists g'. split; [by right|done].
  - destruct (IH Hok Hkeys) as (IHok & IHkeys & IHfrom).
    split; [|split].
    + constructor; [by split|done].
    + split; [|done]. intros g' Hg'. cbn.
      destruct (IHfrom g' Hg') as [(g0 & Hg0 & ->)| ->]; [by apply Hk|done].
    + intros g' [->|Hg']%elem_of_cons.
      * left. exists (k, g). split; [by left|done].
      * destruct (IHfrom g' Hg') as [(g0 & Hg0 & ->)| ->]; [|by right].
        left. exists g0. split; [by right|done].
Qed.

Lemma group_step_named groups (a : gmap string jval) (n : jval) :
  a !! "album_name" = Some n →
  Dedup.group_step groups a = Ok (Dedup.group_add n a groups).
Proof. unfold Dedup.group_step. by intros ->. Qed.

Lemma group_albums_ok (albums : list (gmap string jval)) :
  ∀ groups,
  Forall (fun a => wf_album a = true ∧ is_Some (a !! "album_name")) albums →
  Forall group_ok groups → keys_distinct groups →
  ∃ groups', fold_result Dedup.group_step groups albums = Ok groups' ∧
             Forall group_ok groups' ∧ keys_distinct groups'.
Proof.
  induction albums as [|a albums IH]; intros groups Hall Hok Hkeys; cbn [fold_result].
  { by exists groups. }
  apply Forall_cons in Hall as [[Hwf [n Hn]] Hall].
  rewrite (group_step_named groups a n Hn). cbn [mbind result_bind rbind].
  destruct (group_add_ok n a groups Hwf Hn Hok Hkeys) as (Hok' & Hkeys' & _).
  by apply IH.
Qed.

(** Records with pairwise different names fall into groups of one. *)
Lemma group_albums_singletons (albums : list (gmap string jval)) :
  ∀ groups,
  Forall (fun a => is_Some (a !! "album_name")) albums →
  names_distinct albums →
  (∀ g a n, g ∈ groups → a ∈ albums → a !! "album_name" = Some n →
            py_eqb g.1 n = false) →
  forallb (fun g => (length g.2 <=? 1)%nat) groups = true →
  ∃ groups', fold_result Dedup.group_step groups albums = Ok groups' ∧
             forallb (fun g => (length g.2 <=? 1)%nat) groups' = true.
Proof.
  induction albums as [|a albums IH]; intros groups Hnamed Hdist Hfresh Hsingle;
    cbn [fold_result].
  { by exists groups. }
  apply Forall_cons in Hnamed as [[n Hn] Hnamed]. destruct Hdist as [Ha Hdist].
  rewrite (group_step_named groups a n Hn). cbn [mbind result_bind rbind].
  rewrite group_add_fresh.
  2:{ intros g Hg. apply (Hfresh g a n); [done|by left|done]. }
  apply IH; [done|done| |].
  - intros g b nb [Hg| ->%list_elem_of_singleton]%elem_of_app Hb Hnb.
    + apply (Hfresh g b nb); [done|by right|done].
    + cbn. specialize (Ha b Hb). unfold name_eqb in Ha. by rewrite Hn, Hnb in Ha.
  - rewrite forallb_app, Hsingle. done.
Qed.

(** *** Idempotence of the deduplication pass (C2) *)

Lemma mapM_Forall2 {A B} (f : A → result B) (P : A → B → Prop) (l : list A) :
  Forall (fun x => ∃ y, f x = Ok y ∧ P x y) l →
  ∃ k, mapM f l = Ok k ∧ Forall2 P l k.
Proof.
  induction 1 as [|x l (y & Hy & HP) _ (k & Hk & HF)].
  { exists []. split; [done|constructor]. }
  exists (y :: k). rewrite mapM_result_cons, Hy, Hk. split; [done|by constructor].
Qed.

Lemma py_neg_numeric (v : jval) :
  is_Some (num_of v) → ∃ v', py_neg v = Ok v' ∧ is_Some (num_of v').
Proof. destruct v; intros [x Hx]; try done; cbn; eexists; split; eauto. Qed.

Lemma merged_of_group (g : jval * list (gmap string jval)) :
  group_ok g →
  ∃ m, Dedup.merge_albums g.2 = Ok m ∧
       (∃ n, m !! "album_name" = Some n ∧ py_eqb g.1 n = true) ∧
       is_Some (num_of (Dedup.play_count_key m)).
Proof.
  intros [Hne Hall].
  assert (Forall (fun a => wf_album a = true) g.2) as Hwf.
  { eapply Forall_impl; [exact Hall|]. by intros a [? _]. }
  destruct (merge_albums_unfold g.2 Hwf Hne) as (base & rest & _ & Hperm & Hmerge).
  assert (Forall (fun a => wf_album a = true) (base :: rest)) as Hwf'
    by by rewrite Hperm.
  apply Forall_cons in Hwf' as [Hwfb Hrest].
  destruct (merge_fold_spec rest base) as (m & Hfold & _ & _ & _ & _ & _ & _ & Ho & _).
  { by apply wf_album_listens. }
  { eapply Forall_impl; [exact Hrest|]. apply wf_album_listens. }
  assert (base ∈ g.2) as Hbase by (rewrite <- Hperm; by left).
  rewrite Forall_forall in Hall. destruct (Hall base Hbase) as [_ (n & Hn & Hkn)].
  exists m. split; [by rewrite Hmerge|]. split.
  - exists n. split; [|done]. rewrite Ho; [done| |done].
    unfold merge_written. set_solver.
  - unfold Dedup.play_count_key. rewrite Ho; [|unfold merge_written; set_solver|done].
    by apply wf_album_numeric.
Qed.

Lemma merged_names_distinct groups (merged : list (gmap string jval)) :
  keys_distinct groups →
  Forall2 (fun g m => ∃ n, m !! "album_name" = Some n ∧ py_eqb g.1 n = true)
          groups merged →
  names_distinct merged.
Proof.
  intros Hkeys HF. induction HF as [|g m groups merged (n & Hn & Hgn) HF IH]; [done|].
  destruct Hkeys as [Hk Hkeys]. split; [|by apply IH].
  intros b Hb.
  apply list_elem_of_lookup in Hb as [i Hb].
  destruct (Forall2_lookup_r _ _ _ _ _ HF Hb) as (g' & Hg' & nb & Hnb & Hgb).
  apply list_elem_of_lookup_2 in Hg'. specialize (Hk g' Hg').
  unfold name_eqb. rewrite Hn, Hnb.
  destruct (py_eqb n nb) eqn:E; [|done].
  rewrite <- Hk. symmetry.
  apply (py_eqb_trans _ n); [done|].
  apply (py_eqb_trans _ nb); [done|]. by rewrite py_eqb_sym.
Qed.

(** C2.  On a report whose records are named and well formed, the
    deduplication pass returns, and running it again on the document it
    leaves behind (whatever the clock shows) changes nothing: the merged
    records have pairwise different names, so the second pass finds no
    duplicates and returns before writing. *)
Theorem dedup_main_idempotent (now now' : string) (data : document) :
  wf_document data = true →
  ∃ d1, Dedup.main now data = Ok d1 ∧ Dedup.main now' d1 = Ok d1.
Proof.
  unfold wf_document. intros [Hrecs Hstats]%andb_true_iff.
  apply bool_decide_eq_true in Hstats as [stats Hstats].
  rewrite forallb_forall in Hrecs.
  assert (Forall (fun a => wf_album a = true ∧ is_Some (a !! "album_name"))
            (default [] (doc_watch_albums data))) as Hall.
  { apply Forall_forall. intros a Ha%list_elem_of_In.
    apply Hrecs in Ha. apply andb_true_iff in Ha as [? Hn].
    by apply bool_decide_eq_true in Hn. }
  destruct (group_albums_ok _ [] Hall) as (groups & Hgroups & Hok & Hkeys);
    [done|done|].
  unfold Dedup.main at 1. unfold Dedup.group_albums. rewrite Hgroups.
  cbn [mbind result_bind rbind].
  destruct (forallb _ groups) eqn:Hsingle.
  { exists data. split; [done|].
    unfold Dedup.main, Dedup.group_albums. rewrite Hgroups.
    cbn [mbind result_bind rbind]. by rewrite Hsingle. }
  destruct (mapM_Forall2 (fun g => Dedup.merge_albums g.2)
              (fun g m => (∃ n, m !! "album_name" = Some n ∧ py_eqb g.1 n = true)
                          ∧ is_Some (num_of (Dedup.play_count_key m))) groups)
    as (merged & Hmerged & HF).
  { eapply Forall_impl; [exact Hok|]. intros g Hg.
    destruct (merged_of_group g Hg) as (m & ? & ? & ?). by exists m. }
  rewrite Hmerged. cbn [mbind result_bind rbind].
  assert (Forall (fun m => is_Some (m !! "album_name")
                           ∧ is_Some (num_of (Dedup.play_count_key m))) merged)
    as Hmwf.
  { clear -HF. induction HF as [|g m ? ? [(n & Hn & _) Hpc] _ IH]; constructor; [|done].
    split; [by exists n|done]. }
  destruct (py_sorted_total (fun x => py_neg (Dedup.play_count_key x))
              neg_key false merged) as [sorted Hsorted].
  { eapply Forall_impl; [exact Hmwf|]. intros m [_ Hpc]. unfold neg_key.
    by destruct (py_neg_numeric _ Hpc) as (v' & -> & ?). }
  rewrite Hsorted. cbn [mbind result_bind rbind]. rewrite Hstats.
  eexists. split; [reflexivity|].
  pose proof (py_sorted_perm _ _ _ _ Hsorted) as Hperm.
  assert (names_distinct sorted) as Hdist.
  { apply (names_distinct_perm merged); [done|].
    apply (merged_names_distinct groups); [done|].
    eapply Forall2_impl; [exact HF|]. by intros g m [? _]. }
  destruct (group_albums_singletons sorted []) as (groups' & Hg' & Hs').
  - rewrite Hperm. eapply Forall_impl; [exact Hmwf|]. by intros m [? _].
  - done.
  - intros g a n Hg. by apply elem_of_nil in Hg.
  - done.
  - unfold Dedup.main, Dedup.group_albums. cbn [doc_watch_albums from_option id].
    rewrite Hg'. cbn [mbind result_bind rbind]. by rewrite Hs'.
Qed.

Lemma dedup_main_idempotent_witness :
  ∃ d1, Dedup.main "2024-08-01T00:00:00" sample_document = Ok d1 ∧
        Dedup.main "2024-08-02T00:00:00" d1 = Ok d1.
Proof.
  apply (dedup_main_idempotent "2024-08-01T00:00:00" "2024-08-02T00:00:00"
           sample_document).
  vm_compute. reflexivity.
Defined.

(** ** Folding speculative matches into the report (C8, C9) *)

Lemma copy_keys_fold (maybe : gmap string jval) (keys : list string) :
  ∀ (acc : gmap string jval) (k : string),
  foldl (fun acc key =>
           match maybe !! key with
           | Some v => <[key := v]> acc
           | None => acc
           end) acc keys !! k
  = if bool_decide (k ∈ keys)
    then match maybe !! k with Some v => Some v | None => acc !! k end
    else acc !! k.
Proof.
  induction keys as [|key keys IH]; intros acc k; cbn [foldl].
  { by rewrite bool_decide_eq_false_2 by apply not_elem_of_nil. }
  rewrite IH. destruct (decide (k = key)) as [->|Hne].
  - rewrite (bool_decide_eq_true_2 (key ∈ key :: keys)) by by left.
    destruct (maybe !! key) as [v|] eqn:Hv.
    + rewrite lookup_insert_eq. by destruct (bool_decide _).
    + by destruct (bool_decide _).
  - assert (bool_decide (k ∈ key :: keys) = bool_decide (k ∈ keys)) as ->.
    { apply bool_decide_ext. set_solver. }
    destruct (maybe !! key) as [v|]; [|done].
    by rewrite lookup_insert_ne.
Qed.

Lemma copy_keys_lookup (maybe e : gmap string jval) (k : string) :
  MergeMaybe.copy_keys maybe e !! k
  = if bool_decide (k ∈ MergeMaybe.strava_keys)
    then match maybe !! k with Some v => Some v | None => e !! k end
    else e !! k.
Proof. apply copy_keys_fold. Qed.

Lemma update_existing_spec (name : jval) (maybe : gmap string jval)
    (albums : list (gmap string jval)) :
  Forall (fun e => is_Some (e !! "album_name")) albums →
  ∃ albums',
    MergeMaybe.update_existing name maybe albums = Ok albums' ∧
    ((Forall (fun e => same_name name e = false) albums ∧ albums' = albums)
     ∨
     (∃ (i : nat) e,
        albums !! i = Some e ∧ same_name name e = true ∧
        (∀ (j : nat) e0, (j < i)%nat → albums !! j = Some e0 →
                         same_name name e0 = false) ∧
        albums' = <[i := if bool_decide (is_Some (e !! "strava_activity_id"))
                         then e else MergeMaybe.copy_keys maybe e]> albums)).
Proof.
  induction 1 as [|e albums [n Hn] _ IH].
  { exists []. split; [done|]. left. by split. }
  cbn [MergeMaybe.update_existing]. rewrite Hn.
  assert (same_name name e = py_eqb n name) as Hsame
    by (unfold same_name; by rewrite Hn).
  destruct (py_eqb n name) eqn:E.
  - eexists. split; [reflexivity|]. right. exists 0%nat, e.
    split; [done|]. split; [done|]. split; [intros; lia|done].
  - destruct IH as (albums' & -> & Hcase). cbn [mbind result_bind rbind].
    exists (e :: albums'). split; [done|].
    destruct Hcase as [[Hall ->]|(i & e' & Hi & He' & Hfirst & ->)].
    + left. split; [by constructor|done].
    + right. exists (S i), e'. split; [done|]. split; [done|]. split; [|done].
      intros [|j] e0 Hj; cbn.
      * by intros [= <-].
      * apply Hfirst. lia.
Qed.

(** C8, as the code has it.  When the name of a speculative record is
    among the existing names, the record is not appended: the list keeps
    its length and only the first existing album of that name can change.
    That album is left as it is when it already has a
    ['strava_activity_id'] key; otherwise it receives the speculative
    record's values for those of the five listed keys that the speculative
    record has, and every other field of it stays. *)
Theorem process_maybe_collision (names : list jval)
    (albums : list (gmap string jval)) (maybe : gmap string jval) (name : jval) :
  maybe !! "album_name" = Some name →
  existsb (fun n => py_eqb n name) names = true →
  Forall (fun e => is_Some (e !! "album_name")) albums →
  ∃ albums',
    MergeMaybe.process_maybe names albums maybe = Ok albums' ∧
    length albums' = length albums ∧
    ((Forall (fun e => same_name name e = false) albums ∧ albums' = albums)
     ∨
     (∃ (i : nat) e,
        albums !! i = Some e ∧ same_name name e = true ∧
        (∀ (j : nat) e0, (j < i)%nat → albums !! j = Some e0 →
                         same_name name e0 = false) ∧
        albums' = <[i := if bool_decide (is_Some (e !! "strava_activity_id"))
                         then e else MergeMaybe.copy_keys maybe e]> albums)) ∧
    (∀ e k, MergeMaybe.copy_keys maybe e !! k
            = if bool_decide (k ∈ MergeMaybe.strava_keys)
              then match maybe !! k with Some v => Some v | None => e !! k end
              else e !! k).
Proof.
  intros Hname Hin Hnamed. unfold MergeMaybe.process_maybe.
  rewrite Hname, Hin.
  destruct (update_existing_spec name maybe albums Hnamed) as (albums' & -> & Hcase).
  exists albums'. split; [done|]. split; [|split; [done|]].
  - destruct Hcase as [[_ ->]|(i & e & _ & _ & _ & ->)]; [done|].
    by rewrite length_insert.
  - intros e k. apply copy_keys_lookup.
Qed.

Lemma process_maybe_collision_witness :
  ∃ albums',
    MergeMaybe.process_maybe [JStr "X"] [existing_without_id] maybe_match
      = Ok albums' ∧
    length albums' = 1%nat ∧
    albums' = [MergeMaybe.copy_keys maybe_match existing_without_id].
Proof.
  destruct (process_maybe_collision [JStr "X"] [existing_without_id]
              maybe_match (JStr "X")) as (albums' & Hrun & Hlen & _).
  - reflexivity.
  - reflexivity.
  - repeat constructor. by eexists.
  - exists albums'. split; [done|]. split; [done|].
    vm_compute in Hrun. injection Hrun as <-. vm_compute. reflexivity.
Defined.

(** The existing album has an activity id but no distance; the
    speculative record of the same name has a distance, which the existing
    album does not gain. *)
Lemma process_maybe_keeps_missing_field :
  MergeMaybe.process_maybe [JStr "X"] [existing_with_id] maybe_match
    = Ok [existing_with_id] ∧
  existing_with_id !! "strava_distance_miles" = None ∧
  maybe_match !! "strava_distance_miles" = Some (JFloat (31 # 10)).
Proof. repeat split; vm_compute; reflexivity. Qed.

Example print_summary_raises : MergeMaybe.print_summary = Raise NameError.
Proof. vm_compute. reflexivity. Qed.

(** C9.  [main] of merge_maybe_data.py never ends normally: when the
    merge and the write of the file succeed, the closing summary reads
    [completed_albums], a name bound nowhere, and the run ends in
    [NameError] with the file already written; when an earlier statement
    raises, the run ends in that exception.  On the sample report and one
    speculative match the file is written and the run ends in
    [NameError]. *)
Theorem merge_maybe_main_raises :
  (∀ (now : string) (data : document) (maybe_albums : list (gmap string jval)),
     is_ok (MergeMaybe.main now data maybe_albums).2 = false ∧
     ∀ saved, MergeMaybe.merge_and_save now data maybe_albums = Ok saved →
              MergeMaybe.main now data maybe_albums = (saved, Raise NameError)) ∧
  (∃ saved,
     MergeMaybe.main "2024-08-01T00:00:00" maybe_document [maybe_match]
       = (saved, Raise NameError) ∧
     doc_watch_albums saved
       = Some [MergeMaybe.copy_keys maybe_match existing_without_id]).
Proof.
  split.
  - intros now data maybe_albums. unfold MergeMaybe.main.
    destruct (MergeMaybe.merge_and_save now data maybe_albums) as [saved|e].
    + rewrite print_summary_raises. split; [done|]. by intros ? [= <-].
    + split; [done|]. done.
  - eexists. split; vm_compute; reflexivity.
Qed.

(** ** More on the aggregator of analyze_music.py *)

Lemma is_track_listened_total (py_float : string → option float) (r : row) :
  ∃ b, MusicAnalyzer.is_track_listened py_float r = Ok b.
Proof.
  unfold MusicAnalyzer.is_track_listened, MusicAnalyzer.is_track_listened_try.
  destruct (MusicAnalyzer.float_field py_float r "Play Duration Milliseconds")
    as [p|e] eqn:Ep; cbn.
  2:{ apply float_field_raises in Ep as ->. by eexists. }
  destruct (MusicAnalyzer.float_field py_float r "Media Duration In Milliseconds")
    as [m|e] eqn:Em; cbn.
  2:{ apply float_field_raises in Em as ->. by eexists. }
  unfold MusicAnalyzer.py_truediv.
  destruct (PrimFloat.eqb m 0); cbn; by eexists.
Qed.

Lemma is_watch_device_fields st r st' w :
  MusicAnalyzer.is_watch_device st r = Ok (st', w) →
  MusicAnalyzer.album_tracks st' = MusicAnalyzer.album_tracks st ∧
  MusicAnalyzer.album_order st' = MusicAnalyzer.album_order st ∧
  MusicAnalyzer.listened_tracks st' = MusicAnalyzer.listened_tracks st ∧
  MusicAnalyzer.album_play_counts st' = MusicAnalyzer.album_play_counts st ∧
  MusicAnalyzer.watch_albums st' = MusicAnalyzer.watch_albums st ∧
  MusicAnalyzer.album_first_listen st' = MusicAnalyzer.album_first_listen st ∧
  MusicAnalyzer.album_last_listen st' = MusicAnalyzer.album_last_listen st.
Proof.
  unfold MusicAnalyzer.is_watch_device.
  destruct (on_str (row_get_default r "Device Type") _); cbn; [|done].
  destruct (on_str (row_get_default r "Device OS Name") _); cbn; [|done].
  destruct (on_str (row_get_default r "Client Device Name") _); cbn; [|done].
  intros [= <- _]. done.
Qed.

Lemma get_album_key_artist (r : row) (k : string * string) :
  MusicAnalyzer.get_album_key r = Ok k → k.2 = "".
Proof.
  unfold MusicAnalyzer.get_album_key.
  destruct (on_str _ _) as [a|]; cbn; [|done]. by intros [= <-].
Qed.

Lemma process_row_effect (py_float : string → option float) st r :
  (MusicAnalyzer.process_row py_float st r).1 = st ∨
  ∃ key song, row_effect st (MusicAnalyzer.process_row py_float st r).1 key song.
Proof.
  unfold MusicAnalyzer.process_row.
  destruct (MusicAnalyzer.get_album_key r) as [key|] eqn:Hkey; [|by left].
  apply get_album_key_artist in Hkey.
  destruct (on_str _ _) as [song|]; [|by left].
  destruct (PyStr.truthy key.1) eqn:Hk1; cbn [negb orb]; [|by left].
  destruct (PyStr.truthy song) eqn:Hsong; cbn [negb orb]; [|by left].
  right. exists key, song.
  destruct (is_track_listened_total py_float r) as [heard ->].
  assert (∀ first last : gmap (string * string) string,
    let '(first1, last1) :=
      match py_or (row_get_default r "Event End Timestamp")
                  (row_get_default r "Event Start Timestamp") with
      | Some ts =>
          if PyStr.truthy ts
          then (MusicAnalyzer.update_first first key ts,
                MusicAnalyzer.update_last last key ts)
          else (first, last)
      | None => (first, last)
      end in
    (first1 = first ∧ last1 = last) ∨
    ∃ ts, first1 = MusicAnalyzer.update_first first key ts ∧
          last1 = MusicAnalyzer.update_last last key ts) as Hdates.
  { intros first last. destruct (py_or _ _) as [ts|]; [|by left].
    destruct (PyStr.truthy ts); [right; by exists ts|by left]. }
  specialize (Hdates (MusicAnalyzer.album_first_listen st)
                     (MusicAnalyzer.album_last_listen st)).
  destruct (match py_or _ _ with Some _ => _ | None => _ end) as [first1 last1].
  match goal with
  | |- context [MusicAnalyzer.is_watch_device ?s ?r'] =>
      destruct (MusicAnalyzer.is_watch_device s r') as [[st2 w]|] eqn:Hw
  end.
  - apply is_watch_device_fields in Hw
      as (Ht & Ho & Hl & Hc & Hwa & Hf & Hla); cbn in *.
    destruct w; cbn; unfold row_effect; cbn; rewrite ?Ht, ?Ho, ?Hl, ?Hc, ?Hwa, ?Hf, ?Hla;
      (repeat split; try done; [destruct heard; auto|auto]).
  - unfold row_effect; cbn.
    repeat split; try done; [destruct heard; auto|auto].
Qed.

(** A property that every aggregated row keeps holds after any pass. *)
Lemma process_csv_invariant (py_float : string → option float)
    (P : MusicAnalyzer.analyzer → Prop) :
  (∀ st st' key song, P st → row_effect st st' key song → P st') →
  ∀ rows st, P st → P (MusicAnalyzer.process_csv py_float st rows).1.
Proof.
  intros Hstep rows. induction rows as [|r rows IH]; intros st HP; cbn; [done|].
  assert (P (MusicAnalyzer.process_row py_float st r).1) as HP'.
  { destruct (process_row_effect py_float st r) as [->|(key & song & He)]; [done|].
    by eapply Hstep. }
  destruct (MusicAnalyzer.process_row py_float st r) as [st' [e|]]; cbn in *.
  - done.
  - by apply IH.
Qed.

Lemma size_add_bounds (x : string) (X : gset string) :
  (0 < size ({[x]} ∪ X) ≤ S (size X))%nat.
Proof.
  rewrite size_union_alt, size_singleton.
  assert (size (X ∖ {[x]}) ≤ size X)%nat by (apply subseteq_size; set_solver).
  lia.
Qed.

Lemma truthy_nonempty (s : string) : PyStr.truthy s = true → s ≠ "".
Proof. by destruct s. Qed.

Lemma set_add_lookup_Some d k x k' :
  MusicAnalyzer.set_add d k x !! k' =
  if decide (k = k') then Some ({[x]} ∪ default ∅ (d !! k)) else d !! k'.
Proof.
  unfold MusicAnalyzer.set_add. destruct (decide (k = k')) as [->|Hne].
  - by rewrite lookup_insert_eq.
  - by rewrite lookup_insert_ne.
Qed.

Lemma update_first_dom d k ts k' :
  is_Some (MusicAnalyzer.update_first d k ts !! k') → k' = k ∨ is_Some (d !! k').
Proof.
  unfold MusicAnalyzer.update_first.
  destruct (d !! k) as [cur|] eqn:Hk; [destruct (String.ltb ts cur)|];
    try (by right); (destruct (decide (k = k')) as [->|Hne];
      [by left|rewrite lookup_insert_ne by done; by right]).
Qed.

Lemma album_state_step st st' key song :
  album_counts_ok st ∧ album_keys_ok st →
  row_effect st st' key song →
  album_counts_ok st' ∧ album_keys_ok st'.
Proof.
  intros [Hcounts (Hnodup & Horder & Hlist & Hcnt & Hfirst & Hwatch)]
         (Hk1 & Hk2 & Hsong & Ht & Ho & Hl & Hc & Hd & Hw).
  assert (∀ k, is_Some (MusicAnalyzer.album_tracks st' !! k)
               ↔ k = key ∨ is_Some (MusicAnalyzer.album_tracks st !! k)) as Hdom.
  { intros k. rewrite Ht, set_add_lookup_Some.
    destruct (decide (key = k)) as [->|Hne]; [|naive_solver].
    split; [by left|by eexists]. }
  split.
  - intros k tracks. rewrite Ht, set_add_lookup_Some, Hc.
    unfold MusicAnalyzer.count_incr.
    destruct (decide (key = k)) as [<-|Hne].
    + intros [= <-]. rewrite lookup_insert_eq.
      pose proof (size_add_bounds song
        (default ∅ (MusicAnalyzer.album_tracks st !! key))) as Hsz.
      split; [done|]. split; [done|]. split; [lia|]. split.
      * apply truthy_nonempty in Hsong.
        destruct (MusicAnalyzer.album_tracks st !! key) as [T|] eqn:HT; cbn.
        -- destruct (Hcounts key T HT) as (_ & _ & _ & Hne' & _). set_solver.
        -- set_solver.
      * eexists. split; [done|].
        destruct (MusicAnalyzer.album_tracks st !! key) as [T|] eqn:HT; cbn in *.
        -- destruct (Hcounts key T HT) as (_ & _ & _ & _ & n & -> & Hn). cbn. lia.
        -- destruct (MusicAnalyzer.album_play_counts st !! key) as [n|] eqn:Hn.
           { destruct (Hcnt key) as [T' HT']; [by eexists|]. congruence. }
           cbn. rewrite size_empty in Hsz. lia.
    + intros HT. rewrite lookup_insert_ne by done. by apply Hcounts.
  - split; [|split; [|split; [|split; [|split]]]].
    + rewrite Ho. destruct (MusicAnalyzer.album_tracks st !! key) eqn:HT; [done|].
      apply NoDup_app. split; [done|]. split; [|apply NoDup_singleton].
      intros k Hk ->%list_elem_of_singleton.
      apply Horder in Hk as [? ?]. congruence.
    + intros k. rewrite Hdom, Ho.
      destruct (MusicAnalyzer.album_tracks st !! key) eqn:HT.
      * rewrite Horder. split; [by right|]. intros [->|?]; [by eexists|done].
      * rewrite elem_of_app, list_elem_of_singleton, Horder. naive_solver.
    + intros k Hk. apply Hdom. destruct Hl as [Hl|Hl]; rewrite Hl in Hk.
      * right. by apply Hlist.
      * rewrite set_add_lookup_Some in Hk.
        destruct (decide (key = k)) as [->|]; [by left|right; by apply Hlist].
    + intros k Hk. apply Hdom. rewrite Hc in Hk. unfold MusicAnalyzer.count_incr in Hk.
      destruct (decide (key = k)) as [->|]; [by left|].
      rewrite lookup_insert_ne in Hk by done. right. by apply Hcnt.
    + intros k Hk. apply Hdom.
      destruct Hd as [[Hf _]|(ts & Hf & _)]; rewrite Hf in Hk.
      * right. by apply Hfirst.
      * apply update_first_dom in Hk as [->|Hk]; [by left|right; by apply Hfirst].
    + intros k Hk. apply Hdom. destruct Hw as [Hw|Hw]; rewrite Hw in Hk.
      * right. by apply Hwatch.
      * apply elem_of_union in Hk as [->%elem_of_singleton|Hk];
          [by left|right; by apply Hwatch].
Qed.

Lemma listen_dates_step st st' key song :
  listen_dates_ok (MusicAnalyzer.album_first_listen st)
                  (MusicAnalyzer.album_last_listen st) →
  row_effect st st' key song →
  listen_dates_ok (MusicAnalyzer.album_first_listen st')
                  (MusicAnalyzer.album_last_listen st').
Proof.
  intros Hok (_ & _ & _ & _ & _ & _ & _ & Hd & _).
  destruct Hd as [[-> ->]|(ts & -> & ->)]; [done|].
  intros k. specialize (Hok k).
  unfold MusicAnalyzer.update_first, MusicAnalyzer.update_last.
  destruct (decide (key = k)) as [->|Hne].
  - destruct (MusicAnalyzer.album_first_listen st !! k) as [f|] eqn:Hf,
             (MusicAnalyzer.album_last_listen st !! k) as [l|] eqn:Hl; try done.
    + destruct (String.ltb ts f) eqn:E1, (String.ltb l ts) eqn:E2;
        rewrite ?lookup_insert_eq, ?Hf, ?Hl.
      * reflexivity.
      * apply ltb_le in E1. by etrans.
      * apply ltb_le in E2. by etrans.
      * done.
    + rewrite !lookup_insert_eq. reflexivity.
  - destruct (MusicAnalyzer.album_first_listen st !! key) as [f|],
             (MusicAnalyzer.album_last_listen st !! key) as [l|];
      repeat (match goal with
              | |- context [String.ltb ?a ?b] => destruct (String.ltb a b)
              end);
      rewrite ?lookup_insert_ne by done; done.
Qed.

Lemma py_or_is_Some (x y : option string) : is_Some y → is_Some (py_or x y).
Proof.
  intros Hy. unfold py_or. destruct x as [s|]; [|done].
  destruct (PyStr.truthy s); [by eexists|done].
Qed.

Lemma complete_row_default (r : row) (k : string) :
  complete_row r → is_Some (row_get_default r k).
Proof.
  intros Hr. unfold row_get_default.
  destruct (r !! k) as [v|] eqn:Hk; [|by eexists]. by apply (Hr k v).
Qed.

Lemma on_str_raises {A} (v : option string) (f : string → A) (e : exn) :
  on_str v f = Raise e → e = AttributeError.
Proof. destruct v; cbn; congruence. Qed.

Lemma process_row_complete (py_float : string → option float) st (r : row) :
  complete_row r → (MusicAnalyzer.process_row py_float st r).2 = None.
Proof.
  intros Hr. unfold MusicAnalyzer.process_row, MusicAnalyzer.get_album_key.
  destruct (py_or_is_Some (row_get r "Album Name")
              (py_or (row_get r "Container Album Name")
                     (row_get_default r "Container Name"))) as [a ->].
  { apply py_or_is_Some. by apply complete_row_default. }
  cbn [on_str mbind result_bind rbind].
  destruct (complete_row_default r "Song Name" Hr) as [s ->].
  cbn [on_str].
  destruct (negb _ || negb _); [done|].
  destruct (is_track_listened_total py_float r) as [heard ->].
  destruct (match py_or _ _ with Some _ => _ | None => _ end) as [first1 last1].
  unfold MusicAnalyzer.is_watch_device.
  destruct (complete_row_default r "Device Type" Hr) as [d1 ->].
  destruct (complete_row_default r "Device OS Name" Hr) as [d2 ->].
  destruct (complete_row_default r "Client Device Name" Hr) as [d3 ->].
  cbn [on_str mbind result_bind rbind]. by destruct (existsb _ _).
Qed.

Lemma process_csv_app (py_float : string → option float) rows1 rows2 st :
  MusicAnalyzer.process_csv py_float st (rows1 ++ rows2) =
  match MusicAnalyzer.process_csv py_float st rows1 with
  | (st1, None) => MusicAnalyzer.process_csv py_float st1 rows2
  | (st1, Some e) => (st1, Some e)
  end.
Proof.
  revert st. induction rows1 as [|r rows1 IH]; intros st; cbn; [done|].
  destruct (MusicAnalyzer.process_row py_float st r) as [st' [e|]]; [done|].
  apply IH.
Qed.

Lemma init_state_ok :
  album_counts_ok MusicAnalyzer.init ∧ album_keys_ok MusicAnalyzer.init.
Proof.
  split.
  - intros k tracks. cbn. by rewrite lookup_empty.
  - unfold album_keys_ok. cbn. split; [constructor|].
    split.
    { intros k. rewrite lookup_empty. split.
      - intros Hk. by apply elem_of_nil in Hk.
      - by intros [? ?]. }
    repeat split; intros k; rewrite ?lookup_empty; try (by intros [? ?]).
    intros Hk. by apply elem_of_empty in Hk.
Qed.

Section AggregatorErrors.
Variable py_float : string → option float.

(** X1.  A pass over rows none of whose values is [None] never raises:
    every row is either aggregated or skipped. *)
Theorem process_csv_complete_rows st (rows : list row) :
  Forall complete_row rows →
  (MusicAnalyzer.process_csv py_float st rows).2 = None.
Proof.
  intros Hrows. revert st.
  induction Hrows as [|r rows Hr _ IH]; intros st; cbn; [done|].
  pose proof (process_row_complete py_float st r Hr) as Hrow.
  destruct (MusicAnalyzer.process_row py_float st r) as [st' [e|]]; [done|].
  apply IH.
Qed.

(** X2.  A row whose song name is [None] (a line shorter than the header)
    ends the pass with [AttributeError]: the analyzer stays as the rows
    before it left it, and the rows after it are never read. *)
Theorem process_csv_short_row st (rows rest : list row) (r : row) :
  Forall complete_row rows →
  r !! "Song Name" = Some None →
  MusicAnalyzer.process_csv py_float st (rows ++ r :: rest) =
  ((MusicAnalyzer.process_csv py_float st rows).1, Some AttributeError).
Proof.
  intros Hrows Hsong. rewrite process_csv_app.
  pose proof (process_csv_complete_rows st rows Hrows) as Hok.
  destruct (MusicAnalyzer.process_csv py_float st rows) as [st1 e]; cbn in *.
  subst e. cbn [MusicAnalyzer.process_csv].
  assert (MusicAnalyzer.process_row py_float st1 r = (st1, Some AttributeError)) as ->;
    [|done].
  unfold MusicAnalyzer.process_row.
  destruct (MusicAnalyzer.get_album_key r) as [key|e] eqn:Hkey.
  - unfold row_get_default. by rewrite Hsong.
  - unfold MusicAnalyzer.get_album_key in Hkey.
    destruct (on_str _ _) as [a|e'] eqn:Ha; cbn in Hkey; [done|].
    injection Hkey as <-. by apply on_str_raises in Ha as ->.
Qed.

(** X3.  After any pass from a fresh analyzer, every album of
    [album_tracks] has a non-empty name and an empty artist, at least one
    track, no track with an empty name, and a play count that is at least
    its number of distinct tracks. *)
Theorem process_csv_album_counts (rows : list row) :
  album_counts_ok (MusicAnalyzer.process_csv py_float MusicAnalyzer.init rows).1.
Proof.
  eapply proj1.
  apply (process_csv_invariant py_float
           (fun st => album_counts_ok st ∧ album_keys_ok st)).
  - intros st st' key song. apply album_state_step.
  - apply init_state_ok.
Qed.

(** X4.  After any pass from a fresh analyzer, [album_order] lists the
    albums of [album_tracks] once each, in the order they were first
    seen, and the listened tracks, play counts, listen dates and watch
    albums only mention albums of [album_tracks]. *)
Theorem process_csv_album_keys (rows : list row) :
  album_keys_ok (MusicAnalyzer.process_csv py_float MusicAnalyzer.init rows).1.
Proof.
  eapply proj2.
  apply (process_csv_invariant py_float
           (fun st => album_counts_ok st ∧ album_keys_ok st)).
  - intros st st' key song. apply album_state_step.
  - apply init_state_ok.
Qed.

(** X5.  After any pass from a fresh analyzer, an album has a first
    listen exactly when it has a last listen, and the first is not after
    the last in the string order the code compares them in. *)
Theorem process_csv_listen_dates (rows : list row) :
  let st := (MusicAnalyzer.process_csv py_float MusicAnalyzer.init rows).1 in
  listen_dates_ok (MusicAnalyzer.album_first_listen st)
                  (MusicAnalyzer.album_last_listen st).
Proof.
  apply (process_csv_invariant py_float
           (fun st => listen_dates_ok (MusicAnalyzer.album_first_listen st)
                                      (MusicAnalyzer.album_last_listen st))).
  - intros st st' key song. apply listen_dates_step.
  - intros k. cbn. by rewrite !lookup_empty.
Qed.
End AggregatorErrors.

Lemma complete_sample_rows : Forall complete_row sample_rows.
Proof.
  apply Forall_forall. intros r Hr. unfold sample_rows in Hr.
  repeat (apply elem_of_cons in Hr as [->|Hr]);
    [..|by apply elem_of_nil in Hr];
    unfold complete_row; apply (bool_decide_unpack _); vm_compute; exact I.
Qed.

Lemma process_csv_complete_rows_witness :
  (MusicAnalyzer.process_csv decimal_float MusicAnalyzer.init sample_rows).2 = None ∧
  MusicAnalyzer.album_order
    (MusicAnalyzer.process_csv decimal_float MusicAnalyzer.init sample_rows).1
  = [("Hit - Single", ""); ("Other", "")].
Proof.
  split.
  - apply (process_csv_complete_rows decimal_float MusicAnalyzer.init sample_rows).
    exact complete_sample_rows.
  - vm_compute. reflexivity.
Defined.

Lemma process_csv_short_row_witness :
  MusicAnalyzer.process_csv decimal_float MusicAnalyzer.init
    (sample_rows ++ short_row :: sample_rows) =
  ((MusicAnalyzer.process_csv decimal_float MusicAnalyzer.init sample_rows).1,
   Some AttributeError).
Proof.
  apply (process_csv_short_row decimal_float MusicAnalyzer.init sample_rows
           sample_rows short_row).
  - exact complete_sample_rows.
  - reflexivity.
Defined.

(** ** Order of the sorted lists *)

Lemma insert_by_sorted {A} (lt : A → A → bool) (x : A) (l : list A) :
  (∀ a b, lt a b = true → lt b a = false) →
  Sorted (fun a b => lt b a = false) l →
  Sorted (fun a b => lt b a = false) (insert_by lt x l).
Proof.
  intros Hasym. induction 1 as [|y l Hl IH Hhd]; cbn.
  { repeat constructor. }
  destruct (lt y x) eqn:Hyx.
  - constructor; [done|].
    destruct l as [|z l]; cbn in *.
    + constructor. by apply Hasym.
    + destruct (lt z x); constructor; [by inversion Hhd|by apply Hasym].
  - constructor; [by constructor|]. by constructor.
Qed.

Lemma sort_by_sorted {A} (lt : A → A → bool) (l : list A) :
  (∀ a b, lt a b = true → lt b a = false) →
  Sorted (fun a b => lt b a = false) (sort_by lt l).
Proof.
  intros Hasym. induction l as [|x l IH]; cbn; [constructor|].
  by apply insert_by_sorted.
Qed.

Lemma Sorted_weaken {A} (R R' : A → A → Prop) (l : list A) :
  (∀ a b, R a b → R' a b) → Sorted R l → Sorted R' l.
Proof.
  intros HR. induction 1 as [|x l _ IH Hhd]; constructor; [done|].
  destruct Hhd; constructor; auto.
Qed.

Lemma StronglySorted_lookup {A} (R : A → A → Prop) (l : list A) (i j : nat) x y :
  StronglySorted R l → (i < j)%nat → l !! i = Some x → l !! j = Some y → R x y.
Proof.
  intros Hl. revert i j. induction Hl as [|a l _ IH Hall]; intros i j Hij Hi Hj.
  { done. }
  destruct i as [|i], j as [|j]; try lia; cbn in *.
  - injection Hi as <-. rewrite Forall_forall in Hall. apply Hall.
    by eapply list_elem_of_lookup_2.
  - eapply (IH i j); [lia|done|done].
Qed.

Lemma completed_lt_asym (a b : MusicAnalyzer.completed_album) :
  MusicAnalyzer.completed_lt a b = true → MusicAnalyzer.completed_lt b a = false.
Proof.
  unfold MusicAnalyzer.completed_lt.
  set (x := (- MusicAnalyzer.completion_percentage a)%Q).
  set (y := (- MusicAnalyzer.completion_percentage b)%Q).
  intros [Hlt|[Heq Hpc]%andb_true_iff]%orb_true_iff.
  - apply Qle_bool_false_lt in Hlt.
    apply orb_false_iff. split.
    + apply negb_false_iff, Qle_bool_iff. by apply Qlt_le_weak.
    + apply andb_false_iff. left.
      destruct (Qeq_bool y x) eqn:E; [|done].
      apply Qeq_bool_iff in E. rewrite E in Hlt. by apply Qlt_irrefl in Hlt.
  - apply Qeq_bool_iff in Heq. apply Z.ltb_lt in Hpc.
    apply orb_false_iff. split.
    + apply negb_false_iff, Qle_bool_iff. rewrite Heq. apply Qle_refl.
    + apply andb_false_iff. right. apply Z.ltb_ge. lia.
Qed.

Section CompletedAlbums.
Variable py_round1 : Q → Q.

(** X6.  In any analyzer state, every entry of
    [calculate_completed_albums] has listened at least 70 percent of its
    tracks ([7 * total <= 10 * listened]), and the list is in
    non-increasing order of the emitted completion percentage: an entry
    never stands before one with a greater percentage. *)
Theorem calculate_completed_albums_order st :
  (∀ e, e ∈ MusicAnalyzer.calculate_completed_albums py_round1 st →
        (7 * Z.of_nat (MusicAnalyzer.total_tracks e)
         <= 10 * Z.of_nat (MusicAnalyzer.listened_count e))%Z) ∧
  (∀ (i j : nat) x y, (i < j)%nat →
     MusicAnalyzer.calculate_completed_albums py_round1 st !! i = Some x →
     MusicAnalyzer.calculate_completed_albums py_round1 st !! j = Some y →
     (MusicAnalyzer.completion_percentage y
      <= MusicAnalyzer.completion_percentage x)%Q).
Proof.
  split.
  - intros e He. unfold MusicAnalyzer.calculate_completed_albums in He.
    apply elem_of_sort_by, list_elem_of_omap in He as (k & _ & He).
    unfold MusicAnalyzer.completed_entry in He.
    destruct (MusicAnalyzer.album_tracks st !! k) as [all|]; [|done].
    destruct (Nat.eqb_spec (size all) 0) as [|Hpos]; [done|].
    destruct (Qle_bool _ _) eqn:Hle; [|done].
    injection He as <-. cbn.
    apply Qle_bool_iff in Hle.
    set (l := Z.of_nat (size (default ∅ (MusicAnalyzer.listened_tracks st !! k)))) in *.
    set (t := Z.of_nat (size all)) in *.
    assert (0 < t)%Z as Ht by (subst t; lia).
    assert (MusicAnalyzer.COMPLETION_THRESHOLD * inject_Z t <= inject_Z l)%Q as H.
    { assert (inject_Z l == inject_Z l / inject_Z t * inject_Z t)%Q as ->.
      { field. intros E. apply (inject_Z_injective t 0) in E. lia. }
      apply Qmult_le_compat_r; [done|].
      change 0%Q with (inject_Z 0). rewrite <- Zle_Qle. lia. }
    unfold MusicAnalyzer.COMPLETION_THRESHOLD, Qle in H. cbn in H. lia.
  - intros i j x y Hij Hx Hy.
    apply (StronglySorted_lookup
             (fun a b => (MusicAnalyzer.completion_percentage b
                          <= MusicAnalyzer.completion_percentage a)%Q)
             (MusicAnalyzer.calculate_completed_albums py_round1 st) i j);
      [|done..].
    apply Sorted_StronglySorted.
    { intros a b c Hab Hbc. by eapply Qle_trans. }
    eapply Sorted_weaken;
      [|apply sort_by_sorted, completed_lt_asym].
    intros a b Hlt. cbv beta in Hlt.
    unfold MusicAnalyzer.completed_lt in Hlt.
    apply orb_false_iff in Hlt as [Hlt _].
    apply negb_false_iff, Qle_bool_iff in Hlt.
    by apply Qopp_le_compat in Hlt; rewrite !Qopp_involutive in Hlt.
Qed.

(** X7.  [get_watch_albums] of analyze_music.py reports every watch
    album, whatever share of it was listened: the list has as many
    entries as there are watch albums, each entry is the entry of a watch
    album, and the play counts never increase along the list. *)
Theorem music_get_watch_albums_all st :
  length (MusicAnalyzer.get_watch_albums py_round1 st)
    = size (MusicAnalyzer.watch_albums st) ∧
  (∀ e, e ∈ MusicAnalyzer.get_watch_albums py_round1 st ↔
        ∃ k, k ∈ MusicAnalyzer.watch_albums st ∧
             e = MusicAnalyzer.watch_entry py_round1 st k) ∧
  (∀ (i j : nat) x y, (i < j)%nat →
     MusicAnalyzer.get_watch_albums py_round1 st !! i = Some x →
     MusicAnalyzer.get_watch_albums py_round1 st !! j = Some y →
     (MusicAnalyzer.play_count y <= MusicAnalyzer.play_count x)%Z).
Proof.
  unfold MusicAnalyzer.get_watch_albums. split; [|split].
  - rewrite sort_by_perm, length_fmap. done.
  - intros e. rewrite elem_of_sort_by, list_elem_of_fmap.
    split; intros (k & H1 & H2); exists k.
    + by rewrite <- elem_of_elements.
    + by rewrite elem_of_elements.
  - intros i j x y Hij Hx Hy.
    apply (StronglySorted_lookup
             (fun a b => (MusicAnalyzer.play_count b <= MusicAnalyzer.play_count a)%Z)
             (sort_by MusicAnalyzer.play_count_lt
                (MusicAnalyzer.watch_entry py_round1 st
                   <$> elements (MusicAnalyzer.watch_albums st))) i j); [|done..].
    apply Sorted_StronglySorted.
    { intros a b c Hab Hbc. lia. }
    eapply Sorted_weaken; [|apply sort_by_sorted].
    + intros a b Hlt. cbv beta in Hlt. unfold MusicAnalyzer.play_count_lt in Hlt.
      apply Z.ltb_ge in Hlt. lia.
    + intros a b. unfold MusicAnalyzer.play_count_lt.
      rewrite Z.ltb_lt, Z.ltb_ge. lia.
Qed.
End CompletedAlbums.

(** ** More on the merge of duplicate records *)

Lemma merge_albums_fold (g : list (gmap string jval)) :
  Forall (fun a => wf_album a = true) g → g ≠ [] →
  ∃ base rest m,
    base :: rest ≡ₚ g ∧
    Dedup.merge_albums g = Ok m ∧
    fold_result Dedup.merge_step base rest = Ok m ∧
    listens_ok base = true ∧ Forall (fun a => listens_ok a = true) rest.
Proof.
  intros Hwf Hne.
  destruct (merge_albums_unfold g Hwf Hne) as (base & rest & _ & Hperm & Hmerge).
  assert (Forall (fun a => wf_album a = true) (base :: rest)) as Hwf'
    by by rewrite Hperm.
  apply Forall_cons in Hwf' as [Hbase Hrest].
  assert (listens_ok base = true) as Hb by by apply wf_album_listens.
  assert (Forall (fun a => listens_ok a = true) rest) as Hr.
  { eapply Forall_impl; [exact Hrest|]. apply wf_album_listens. }
  destruct (merge_fold_spec rest base Hb Hr) as (m & Hfold & _).
  exists base, rest, m. by rewrite Hmerge.
Qed.

(** X8.  [merge_albums] never invents a star: when no record of the
    group has a truthy [starred], the merged record has none either. *)
Theorem merge_albums_no_new_star (g : list (gmap string jval)) :
  Forall (fun a => wf_album a = true) g → g ≠ [] →
  Forall (fun a => get_truthy a "starred" = false) g →
  ∃ m, Dedup.merge_albums g = Ok m ∧ get_truthy m "starred" = false.
Proof.
  intros Hwf Hne Hnone.
  destruct (merge_albums_fold g Hwf Hne) as (base & rest & m & Hperm & Hm & Hfold & Hb & Hr).
  destruct (merge_fold_spec rest base Hb Hr) as (m' & Hfold' & Hs & _).
  rewrite Hfold in Hfold'. injection Hfold' as <-.
  exists m. split; [done|].
  rewrite <- Hperm in Hnone. apply Forall_cons in Hnone as [Hbase Hrest].
  assert (existsb (fun a => get_truthy a "starred") rest = false) as Hex.
  { apply not_true_is_false. intros (a & Ha & Hta)%existsb_exists.
    rewrite Forall_forall in Hrest.
    apply list_elem_of_In in Ha. rewrite (Hrest a Ha) in Hta. done. }
  rewrite Hex in Hs. unfold get_truthy in *. by rewrite Hs.
Qed.

Lemma merge_albums_no_new_star_witness :
  ∃ m, Dedup.merge_albums [record_run; record_quiet] = Ok m ∧
       get_truthy m "starred" = false.
Proof.
  apply (merge_albums_no_new_star [record_run; record_quiet]).
  - repeat constructor.
  - done.
  - repeat constructor.
Defined.

(** X9.  [merge_albums] never loses a matched activity: when some record
    of the group has a non-empty [strava_activity_id], so has the merged
    record. *)
Theorem merge_albums_keeps_activity (g : list (gmap string jval))
    (a : gmap string jval) :
  Forall (fun x => wf_album x = true) g →
  a ∈ g → has_activity a = true →
  ∃ m, Dedup.merge_albums g = Ok m ∧ has_activity m = true.
Proof.
  intros Hwf Ha Hact.
  assert (g ≠ []) as Hne by by intros ->; apply elem_of_nil in Ha.
  destruct (merge_albums_fold g Hwf Hne) as (base & rest & m & Hperm & Hm & Hfold & Hb & Hr).
  destruct (merge_fold_spec rest base Hb Hr)
    as (m' & Hfold' & _ & _ & _ & _ & _ & Hv & _).
  rewrite Hfold in Hfold'. injection Hfold' as <-.
  exists m. split; [done|].
  specialize (Hv "strava_activity_id" eq_refl).
  unfold has_activity at 1, get_truthy. rewrite Hv.
  destruct (has_activity base) eqn:Hbase; [exact Hbase|].
  rewrite <- Hperm in Ha. apply elem_of_cons in Ha as [->|Ha]; [congruence|].
  destruct (List.find has_activity rest) as [donor|] eqn:Hfind.
  - apply List.find_some in Hfind as [_ Hdonor].
    unfold has_activity, get_truthy in Hdonor.
    by destruct (donor !! "strava_activity_id").
  - apply list_elem_of_In in Ha.
    pose proof (List.find_none _ _ Hfind a Ha). congruence.
Qed.

Lemma merge_albums_keeps_activity_witness :
  ∃ m, Dedup.merge_albums [record_run; record_quiet] = Ok m ∧
       has_activity m = true.
Proof.
  apply (merge_albums_keeps_activity [record_run; record_quiet] record_run).
  - repeat constructor.
  - by left.
  - reflexivity.
Defined.

(** X10.  [merge_albums] keeps the listen dates in order: when every
    record that has a first listen also has a last listen that is not
    before it, the first listen of the merged record is not after its
    last listen. *)
Theorem merge_albums_dates_in_order (g : list (gmap string jval)) :
  Forall (fun a => wf_album a = true) g → g ≠ [] →
  Forall dates_in_order g →
  ∃ m, Dedup.merge_albums g = Ok m ∧ dates_in_order m.
Proof.
  intros Hwf Hne Hdates.
  destruct (merge_albums_fold g Hwf Hne) as (base & rest & m & Hperm & Hm & Hfold & Hb & Hr).
  destruct (merge_fold_spec rest base Hb Hr)
    as (m' & Hfold' & _ & Hf & Hl & _).
  rewrite Hfold in Hfold'. injection Hfold' as <-.
  exists m. split; [done|].
  destruct (fold_earlier_spec ((fun a => listen_of a "first_listen") <$> rest)
              (listen_of base "first_listen")) as [_ Hfin].
  destruct (fold_later_spec ((fun a => listen_of a "last_listen") <$> rest)
              (listen_of base "last_listen")) as [Hlle _].
  rewrite <- Hf in Hfin. rewrite <- Hl in Hlle.
  rewrite <- Hperm in Hdates. apply Forall_cons in Hdates as [Hdb Hdr].
  intros f Hmf.
  assert (∃ a, (a = base ∨ a ∈ rest) ∧ listen_of a "first_listen" = Some f)
    as (a & Ha & Haf).
  { destruct (Hfin f Hmf) as [Hbf|Hin].
    - exists base. by split; [left|].
    - apply elem_of_listens in Hin as (a & Ha & Haf). exists a. by split; [right|]. }
  assert (dates_in_order a) as Hda.
  { destruct Ha as [->|Ha]; [done|]. rewrite Forall_forall in Hdr. by apply Hdr. }
  destruct (Hda f Haf) as (l & Hal & Hfl).
  destruct (Hlle l) as (ml & Hml & Hlml).
  { destruct Ha as [->|Ha]; [by left|]. right. apply elem_of_listens. by exists a. }
  exists ml. split; [done|]. by etrans.
Qed.

Lemma merge_albums_dates_in_order_witness :
  ∃ m, Dedup.merge_albums [record_run; record_quiet] = Ok m ∧
       listen_of m "first_listen" = Some "2024-04-01T10:00:00Z" ∧
       listen_of m "last_listen" = Some "2024-05-01T11:00:00Z".
Proof.
  destruct (merge_albums_dates_in_order [record_run; record_quiet])
    as (m & Hm & _).
  - repeat constructor.
  - done.
  - apply Forall_forall. intros a Ha. unfold dates_in_order.
    repeat (apply elem_of_cons in Ha as [->|Ha]); [..|by apply elem_of_nil in Ha];
      intros f Hf; vm_compute in Hf; injection Hf as <-;
      eexists; (split; [vm_compute; reflexivity|vm_compute; exact I]).
  - exists m. split; [done|].
    vm_compute in Hm. injection Hm as <-. split; vm_compute; reflexivity.
Defined.

(** ** What the deduplication pass leaves in the report *)

Lemma group_add_concat (n : jval) (a : gmap string jval) groups :
  concat ((Dedup.group_add n a groups).*2) ≡ₚ a :: concat (groups.*2).
Proof.
  induction groups as [|[k g] groups IH]; cbn; [done|].
  destruct (py_eqb k n); cbn.
  - rewrite <- app_assoc. cbn.
    symmetry. apply Permutation_middle.
  - rewrite IH. symmetry. apply Permutation_middle.
Qed.

Lemma group_albums_concat (albums : list (gmap string jval)) :
  ∀ groups groups',
  fold_result Dedup.group_step groups albums = Ok groups' →
  concat (groups'.*2) ≡ₚ concat (groups.*2) ++ albums.
Proof.
  induction albums as [|a albums IH]; intros groups groups'; cbn [fold_result].
  { intros [= <-]. by rewrite app_nil_r. }
  destruct (a !! "album_name") as [n|] eqn:Hn.
  - rewrite (group_step_named groups a n Hn). cbn [mbind result_bind rbind].
    intros H. rewrite (IH _ _ H), group_add_concat.
    apply Permutation_middle.
  - assert (Dedup.group_step groups a = Raise KeyError) as ->
      by (unfold Dedup.group_step; by rewrite Hn).
    done.
Qed.

Lemma elem_of_concat_groups {A} (x : A) (ls : list (list A)) :
  x ∈ concat ls ↔ ∃ l, x ∈ l ∧ l ∈ ls.
Proof.
  induction ls as [|l ls IH]; cbn.
  { split; [by intros ?%elem_of_nil|]. intros (l & _ & Hl). by apply elem_of_nil in Hl. }
  rewrite elem_of_app, IH. split.
  - intros [Hx|(l' & Hx & Hl')]; [exists l; split; [done|by left]|].
    exists l'. split; [done|by right].
  - intros (l' & Hx & [->|Hl']%elem_of_cons); [by left|]. right. by exists l'.
Qed.

Lemma name_eqb_key (k : jval) (a b : gmap string jval) :
  (∃ n, a !! "album_name" = Some n ∧ py_eqb k n = true) →
  (∃ n, b !! "album_name" = Some n ∧ py_eqb k n = true) →
  name_eqb a b = true.
Proof.
  intros (na & Ha & Hka) (nb & Hb & Hkb). unfold name_eqb. rewrite Ha, Hb.
  apply (py_eqb_trans _ k); [by rewrite py_eqb_sym|done].
Qed.

Lemma name_eqb_keys (k k' : jval) (a b : gmap string jval) :
  (∃ n, a !! "album_name" = Some n ∧ py_eqb k n = true) →
  (∃ n, b !! "album_name" = Some n ∧ py_eqb k' n = true) →
  py_eqb k k' = false → name_eqb a b = false.
Proof.
  intros (na & Ha & Hka) (nb & Hb & Hkb) Hkk. unfold name_eqb. rewrite Ha, Hb.
  destruct (py_eqb na nb) eqn:E; [|done].
  rewrite <- Hkk. symmetry.
  apply (py_eqb_trans _ na); [done|].
  apply (py_eqb_trans _ nb); [done|]. by rewrite py_eqb_sym.
Qed.

Lemma singleton_groups_distinct groups :
  Forall group_ok groups → keys_distinct groups →
  forallb (fun g => (length g.2 <=? 1)%nat) groups = true →
  names_distinct (concat (groups.*2)).
Proof.
  induction 1 as [|[k g] groups [Hne Hg] Hok IH]; intros Hkeys Hsingle; [done|].
  destruct Hkeys as [Hk Hkeys]. cbn in Hsingle.
  apply andb_true_iff in Hsingle as [Hlen Hsingle]. apply Nat.leb_le in Hlen.
  destruct g as [|a [|b g]]; cbn in *; [done| |lia].
  split; [|by apply IH].
  apply Forall_cons in Hg as [[_ Ha] _].
  intros b Hb. apply elem_of_concat_groups in Hb as (l & Hb & Hl).
  apply list_elem_of_fmap in Hl as ([k' g'] & -> & Hg').
  apply (name_eqb_keys k k'); [done| |by apply (Hk (k', g'))].
  rewrite Forall_forall in Hok. destruct (Hok _ Hg') as [_ Hall].
  rewrite Forall_forall in Hall. cbn in *. by destruct (Hall b Hb).
Qed.

(** The two ways [main] ends on a well-formed report: it finds no
    duplicates and leaves the file alone, or it writes the merged records,
    one per group, sorted. *)
Lemma dedup_main_cases (now : string) (data : document) :
  wf_document data = true →
  ∃ groups,
    Forall group_ok groups ∧ keys_distinct groups ∧
    concat (groups.*2) ≡ₚ default [] (doc_watch_albums data) ∧
    ((forallb (fun g => (length g.2 <=? 1)%nat) groups = true ∧
      Dedup.main now data = Ok data)
     ∨
     (∃ merged sorted d1,
        Forall2 (fun g m => ∃ n, m !! "album_name" = Some n ∧ py_eqb g.1 n = true)
                groups merged ∧
        sorted ≡ₚ merged ∧
        Dedup.main now data = Ok d1 ∧
        doc_watch_albums d1 = Some sorted)).
Proof.
  unfold wf_document. intros [Hrecs Hstats]%andb_true_iff.
  apply bool_decide_eq_true in Hstats as [stats Hstats].
  rewrite forallb_forall in Hrecs.
  assert (Forall (fun a => wf_album a = true ∧ is_Some (a !! "album_name"))
            (default [] (doc_watch_albums data))) as Hall.
  { apply Forall_forall. intros a Ha%list_elem_of_In.
    apply Hrecs in Ha. apply andb_true_iff in Ha as [? Hn].
    by apply bool_decide_eq_true in Hn. }
  destruct (group_albums_ok _ [] Hall) as (groups & Hgroups & Hok & Hkeys);
    [done|done|].
  exists groups. split; [done|]. split; [done|].
  split; [by rewrite (group_albums_concat _ _ _ Hgroups)|].
  unfold Dedup.main, Dedup.group_albums. rewrite Hgroups.
  cbn [mbind result_bind rbind].
  destruct (forallb _ groups) eqn:Hsingle; [by left|]. right.
  destruct (mapM_Forall2 (fun g => Dedup.merge_albums g.2)
              (fun g m => (∃ n, m !! "album_name" = Some n ∧ py_eqb g.1 n = true)
                          ∧ is_Some (num_of (Dedup.play_count_key m))) groups)
    as (merged & Hmerged & HF).
  { eapply Forall_impl; [exact Hok|]. intros g Hg.
    destruct (merged_of_group g Hg) as (m & ? & ? & ?). by exists m. }
  rewrite Hmerged. cbn [mbind result_bind rbind].
  destruct (py_sorted_total (fun x => py_neg (Dedup.play_count_key x))
              neg_key false merged) as [sorted Hsorted].
  { clear -HF. induction HF as [|g m ? ? [_ Hpc] _ IH]; constructor; [|done].
    unfold neg_key. by destruct (py_neg_numeric _ Hpc) as (v' & -> & ?). }
  rewrite Hsorted. cbn [mbind result_bind rbind]. rewrite Hstats.
  exists merged, sorted. eexists. split.
  { eapply Forall2_impl; [exact HF|]. by intros g m [? _]. }
  split; [by eapply py_sorted_perm|]. split; [reflexivity|done].
Qed.

(** X11.  On a report whose records are named and well formed, the
    deduplication pass leaves a list in which no two records have equal
    names, which carries exactly the names of the input, and which is not
    longer than the input. *)
Theorem dedup_main_names (now : string) (data : document) :
  wf_document data = true →
  ∃ d1, Dedup.main now data = Ok d1 ∧
    names_distinct (default [] (doc_watch_albums d1)) ∧
    same_names (default [] (doc_watch_albums data))
               (default [] (doc_watch_albums d1)) ∧
    (length (default [] (doc_watch_albums d1))
     ≤ length (default [] (doc_watch_albums data)))%nat.
Proof.
  intros Hwf.
  destruct (dedup_main_cases now data Hwf)
    as (groups & Hok & Hkeys & Hconcat & Hcase).
  assert (∀ a, a ∈ default [] (doc_watch_albums data) →
               ∃ g, g ∈ groups ∧ a ∈ g.2 ∧
                    ∃ n, a !! "album_name" = Some n ∧ py_eqb g.1 n = true)
    as Hmember.
  { intros a Ha. rewrite <- Hconcat in Ha.
    apply elem_of_concat_groups in Ha as (l & Ha & Hl).
    apply list_elem_of_fmap in Hl as (g & -> & Hg).
    exists g. split; [done|]. split; [done|].
    rewrite Forall_forall in Hok. destruct (Hok g Hg) as [_ Hall].
    rewrite Forall_forall in Hall. by destruct (Hall a Ha). }
  destruct Hcase as [[Hsingle Hmain]|(merged & sorted & d1 & HF & Hperm & Hmain & Hd1)].
  - exists data. split; [done|]. split; [|split; [|done]].
    + apply (names_distinct_perm (concat (groups.*2))); [done|].
      by apply singleton_groups_distinct.
    + split; intros a Ha; exists a; (split; [done|]);
        destruct (Hmember a Ha) as (g & _ & _ & Hn); by apply (name_eqb_key g.1).
  - exists d1. split; [done|]. rewrite Hd1. cbn [from_option id].
    split; [|split; [split|]].
    + apply (names_distinct_perm merged); [done|].
      by apply (merged_names_distinct groups).
    + intros a Ha. destruct (Hmember a Ha) as (g & Hg & _ & Hn).
      apply list_elem_of_lookup in Hg as [i Hg].
      destruct (Forall2_lookup_l _ _ _ _ _ HF Hg) as (m & Hm & Hmn).
      exists m. split; [|by apply (name_eqb_key g.1)].
      rewrite Hperm. by eapply list_elem_of_lookup_2.
    + intros b Hb. rewrite Hperm in Hb.
      apply list_elem_of_lookup in Hb as [i Hb].
      destruct (Forall2_lookup_r _ _ _ _ _ HF Hb) as (g & Hg & Hbn).
      apply list_elem_of_lookup_2 in Hg.
      rewrite Forall_forall in Hok. destruct (Hok g Hg) as [Hne Hall].
      destruct g.2 as [|a rest] eqn:Hg2; [done|].
      apply Forall_cons in Hall as [[_ Han] _].
      exists a. split; [|by apply (name_eqb_key g.1)].
      rewrite <- Hconcat. apply elem_of_concat_groups. exists (a :: rest).
      split; [by left|]. apply list_elem_of_fmap. exists g. by rewrite Hg2.
    + rewrite Hperm, <- (Forall2_length _ _ _ HF), <- Hconcat.
      clear -Hok. induction Hok as [|g groups [Hne _] _ IH]; cbn; [done|].
      rewrite length_app. destruct g.2; [done|]. cbn. lia.
Qed.

Lemma dedup_main_names_witness :
  ∃ d1, Dedup.main "2024-08-01T00:00:00" sample_document = Ok d1 ∧
        length (default [] (doc_watch_albums d1)) = 2%nat ∧
        names_distinct (default [] (doc_watch_albums d1)).
Proof.
  destruct (dedup_main_names "2024-08-01T00:00:00" sample_document)
    as (d1 & Hmain & Hdist & _).
  - vm_compute. reflexivity.
  - exists d1. split; [done|]. split; [|done].
    vm_compute in Hmain. injection Hmain as <-. reflexivity.
Defined.

(** ** Widening the matcher's tolerance *)

Section MatcherTolerance.
Variable fromisoformat : string → option FetchStrava.datetime.

(** X12.  A match survives a wider tolerance unchanged: when the matcher
    returns an activity for some tolerance, it returns the same activity
    for every larger tolerance (timestamps all aware or all naive). *)
Theorem find_matching_wider_tolerance
    (album_timestamp : string) (acts : list (gmap string jval))
    (tolerance wider : Z) (a : gmap string jval) :
  (∀ t, FetchStrava.parse_iso_timestamp fromisoformat
          (Some (JStr album_timestamp)) = Some t →
        Forall (fun a => FetchStrava.comparable fromisoformat t a = true) acts) →
  (tolerance <= wider)%Z →
  FetchStrava.find_matching_strava_activity fromisoformat
    album_timestamp acts tolerance = Ok (Some a) →
  FetchStrava.find_matching_strava_activity fromisoformat
    album_timestamp acts wider = Ok (Some a).
Proof.
  intros Hcmp Htol. unfold FetchStrava.find_matching_strava_activity.
  destruct (FetchStrava.parse_iso_timestamp fromisoformat
              (Some (JStr album_timestamp))) as [t|] eqn:Ht; [|done].
  specialize (Hcmp t eq_refl).
  destruct (scan_spec fromisoformat t (tolerance * 60) acts None None Hcmp I)
    as (r & Hr & Hcase).
  destruct (scan_spec fromisoformat t (wider * 60) acts None None Hcmp I)
    as (r' & Hr' & Hcase').
  rewrite Hr, Hr'. intros [= ->].
  assert (inject_Z (tolerance * 60) <= inject_Z (wider * 60))%Q as Hq
    by (rewrite <- Zle_Qle; lia).
  destruct Hcase as [[? _]|(i & a0 & d & [= <-] & Hi & Hd & Hle & _ & Hmin)];
    [done|].
  destruct Hcase' as [[-> Hall]|(i' & a' & d' & -> & Hi' & Hd' & Hle' & _ & Hmin')].
  { apply list_elem_of_lookup_2 in Hi.
    specialize (Hall a d Hi Hd (Qle_trans _ _ _ Hle Hq)). done. }
  destruct (Hmin' i a d Hi Hd (Qle_trans _ _ _ Hle Hq)) as [Hd'd Hfirst'].
  destruct (Hmin i' a' d' Hi' Hd' (Qle_trans _ _ _ Hd'd Hle)) as [Hdd' Hfirst].
  destruct (lt_eq_lt_dec i i') as [[Hlt|Heq]|Hgt].
  - specialize (Hfirst' Hlt). exfalso.
    apply (Qlt_irrefl d). by eapply Qle_lt_trans.
  - subst i'. rewrite Hi in Hi'. by injection Hi' as <-.
  - specialize (Hfirst Hgt). exfalso.
    apply (Qlt_irrefl d'). by eapply Qle_lt_trans.
Qed.
End MatcherTolerance.

Lemma find_matching_wider_tolerance_witness :
  FetchStrava.find_matching_strava_activity SampleIso.fromisoformat
    "2025-03-01T10:00:00Z"
    [SampleIso.run "2025-03-01T10:45:00Z" "a";
     SampleIso.run "2025-03-01T09:50:00Z" "b";
     SampleIso.run "2025-03-01T13:20:00Z" "c"] 600
  = Ok (Some (SampleIso.run "2025-03-01T09:50:00Z" "b")).
Proof.
  apply (find_matching_wider_tolerance SampleIso.fromisoformat _ _ 60 600).
  - intros t Ht. vm_compute in Ht. injection Ht as <-. repeat constructor.
  - lia.
  - exact matcher_nearest.
Defined.
